(** * xkcdpass: word list filtering, word selection, casing and assembly

    A shallow embedding of [xkcdpass/xkcd_password.py].

    Conventions of the embedding:
    - a Python [str] is a Rocq [string]; a character is an [ascii], so the
      built-in string methods ([strip], [upper], [lower], [capitalize]) are
      given on the ASCII range, where Python's Unicode tables agree with them;
    - word lengths and counts ([min_length], [max_length], [numwords],
      [num_digits], [num_symbols]) are natural numbers;
    - the word file is the list of its lines, as iterating over the opened
      file yields them;
    - a [set] is a [gset], a [dict] is a [gmap];
    - randomness, the diagnostic stream and exceptions are threaded through
      an explicit state-and-exception monad;
    - floating-point values are not computed: the entropy report records the
      numbers it is printed from, and the range in which [int(bits *
      numwords)] is defined is a parameter of the report;
    - the file system is a record of what [os.path] and [open] answer, the
      terminal a list of the answers it will deliver and of the text written
      to it; the command line is taken as parsed. *)

From Stdlib Require Import Ascii String.
From stdpp Require Import base option list strings gmap pretty.

Local Open Scope char_scope.
Local Open Scope string_scope.
Local Open Scope list_scope.
Local Open Scope nat_scope.
Local Open Scope stdpp_scope.

(** ** Python strings *)

Module Str.

(** The characters of a string, in order. *)
Fixpoint chars (s : string) : list ascii :=
  match s with
  | EmptyString => []
  | String c s' => c :: chars s'
  end.

Definition len (s : string) : nat := String.length s.

(** [str.isspace] on one character of the ASCII range. *)
Definition isspace (c : ascii) : bool :=
  match c with
  | "009" | "010" | "011" | "012" | "013"
  | "028" | "029" | "030" | "031" | " " => true
  | _ => false
  end%char.

Fixpoint lstrip (s : string) : string :=
  match s with
  | EmptyString => EmptyString
  | String c s' => if isspace c then lstrip s' else s
  end.

Fixpoint rstrip (s : string) : string :=
  match s with
  | EmptyString => EmptyString
  | String c s' =>
      match rstrip s' with
      | EmptyString => if isspace c then EmptyString else String c EmptyString
      | r => String c r
      end
  end.

(** [s.strip()] *)
Definition strip (s : string) : string := rstrip (lstrip s).

Definition is_lower (c : ascii) : bool :=
  let n := nat_of_ascii c in (97 <=? n) && (n <=? 122).
Definition is_upper (c : ascii) : bool :=
  let n := nat_of_ascii c in (65 <=? n) && (n <=? 90).

Definition upper_char (c : ascii) : ascii :=
  if is_lower c then ascii_of_nat (nat_of_ascii c - 32) else c.
Definition lower_char (c : ascii) : ascii :=
  if is_upper c then ascii_of_nat (nat_of_ascii c + 32) else c.

Fixpoint map_chars (f : ascii → ascii) (s : string) : string :=
  match s with
  | EmptyString => EmptyString
  | String c s' => String (f c) (map_chars f s')
  end.

(** [s.upper()], [s.lower()] *)
Definition upper (s : string) : string := map_chars upper_char s.
Definition lower (s : string) : string := map_chars lower_char s.

(** [s.capitalize()]: first character upper-cased, the rest lower-cased. *)
Definition capitalize (s : string) : string :=
  match s with
  | EmptyString => EmptyString
  | String c s' => String (upper_char c) (lower s')
  end.

(** [sep.join(words)] *)
Fixpoint join (sep : string) (ws : list string) : string :=
  match ws with
  | [] => EmptyString
  | [w] => w
  | w :: ws' => w +:+ sep +:+ join sep ws'
  end.

(** The last character of a string, [s[-1]]. *)
Fixpoint last_char (s : string) : option ascii :=
  match s with
  | EmptyString => None
  | String c EmptyString => Some c
  | String _ s' => last_char s'
  end.

(** [s[i]] for [0 <= i < len(s)] *)
Definition get (i : nat) (s : string) : option ascii := String.get i s.

End Str.

(** The case table of the specification, character by character and by
    character code, on the ASCII range: lower-casing moves the codes 65-90
    (A-Z) up by 32 and keeps every other code, upper-casing moves the codes
    97-122 (a-z) down by 32 and keeps every other code; capitalizing
    upper-cases the first character and lower-cases the others.  The string
    methods of [Str] are compared with it. *)
Module CaseTable.







End CaseTable.

(** ** The regular expression of the word list filter *)

(** The [valid_chars] fragment, when it denotes one allowed character. *)
Inductive charclass : Type :=
| Dot                                              (* .        *)
| Lit (c : ascii)                                  (* a        *)
| Bracket (negated : bool) (items : list (ascii * ascii)).
                                                   (* [a-z_] or [^a-z_];
                                                      a single member c is (c, c) *)

Definition in_range (c : ascii) (r : ascii * ascii) : bool :=
  (nat_of_ascii r.1 <=? nat_of_ascii c) && (nat_of_ascii c <=? nat_of_ascii r.2).

Definition cc_match (cls : charclass) (c : ascii) : bool :=
  match cls with
  | Dot => negb (Ascii.eqb c "010")
  | Lit a => Ascii.eqb c a
  | Bracket neg items => xorb neg (existsb (in_range c) items)
  end.

(** [re.compile("^{0}{{{1},{2}}}$".format(valid_chars, lo, hi))], for the
    bounds [lo <= hi] that [generate_wordlist] passes. *)
Record regexp : Type := Regexp { re_class : charclass; re_lo : nat; re_hi : nat }.

(** [$]: the end of the string, or just before a newline that ends it. *)
Definition at_dollar (s : string) : bool :=
  match s with
  | EmptyString => true
  | String c EmptyString => Ascii.eqb c "010"
  | _ => false
  end.

(** Between [lo] and [hi] characters of the class, then [$]. *)
Fixpoint rep_match (cls : charclass) (lo hi : nat) (s : string) {struct s}
    : bool :=
  (match lo with 0 => at_dollar s | S _ => false end)
  || match s, hi with
     | String c s', S hi' => cc_match cls c && rep_match cls (pred lo) hi' s'
     | _, _ => false
     end.

(** [regexp.match(s) is not None] *)
Definition re_match (r : regexp) (s : string) : bool :=
  rep_match (re_class r) (re_lo r) (re_hi r) s.

(** ** Word list filter *)

(** [wordfile] stands for the lines of the file that [locate_wordfile]
    resolves and [open] reads; [list(words)] lists the set in an order of
    its own, as Python does. *)
Definition generate_wordlist (wordfile : list string)
    (min_length max_length : nat) (valid_chars : charclass) : list string :=
  (* deal with inconsistent min and max, erring toward security *)
  let max_length :=
    if decide (max_length < min_length) then min_length else max_length in
  let regexp := Regexp valid_chars min_length max_length in
  let words : gset string :=
    foldl (λ words line,
             let thisword := Str.strip line in
             if re_match regexp thisword then {[ thisword ]} ∪ words else words)
          ∅ wordfile in
  elements words.

(** ** Effects: exceptions, random sources, output streams *)

Inductive exn : Type :=
| AttributeError
| IndexError
| KeyError
| ValueError
| OverflowError
| SystemExit (code : nat).

Inductive result (A : Type) : Type :=
| Ok (a : A)
| Raise (e : exn).
Arguments Ok {A} a.
Arguments Raise {A} e.

Global Instance result_ret : MRet result := λ A a, Ok a.
Global Instance result_bind : MBind result := λ A B f m,
  match m with
  | Ok a => f a
  | Raise e => Raise e
  end.

(** Where a random draw takes its bits from. *)
Inductive source : Type :=
| OsEntropy       (* os.urandom, read by an instance of random.SystemRandom *)
| FreshTwister    (* a newly built random.Random(): a Mersenne Twister *)
| SharedTwister.  (* the hidden Mersenne Twister behind random.choice,
                     random.randint and random.seed *)

Global Instance source_eq_dec : EqDecision source.
Proof. solve_decision. Defined.

(** Cryptographically secure sources. *)
Definition secure (src : source) : bool :=
  match src with
  | OsEntropy => true
  | FreshTwister | SharedTwister => false
  end.

(** The values a source will deliver, as an infinite sequence. *)
Definition stream : Type := nat → nat.

(** What the report of [verbose_reports] prints, one entry per [print]. *)
Inductive printed : Type :=
| WordListSize (length : nat)
    (* With the current options, your word list contains {0} words. *)
| EntropyEstimate (numwords : nat) (length : nat)
    (* A {0} word password from this list will have roughly
       {1} ({2:.2f} * {3}) bits of entropy,
       where bits = math.log(length, 2) fills {2} and int(bits * numwords) {1} *)
| AssumingRandom.
    (* assuming truly random word selection. *)

Record world : Type := World {
  entropy : source → stream;   (* what each source delivers next *)
  draws : list source;         (* the sources drawn from so far, oldest first *)
  stderr : list string;        (* sys.stderr.write, oldest first *)
  stdout : list printed        (* print, oldest first *)
}.

Definition M (A : Type) : Type := world → result A * world.

Global Instance M_ret : MRet M := λ A a w, (Ok a, w).
Global Instance M_bind : MBind M := λ A B f m w,
  match m w with
  | (Ok a, w') => f a w'
  | (Raise e, w') => (Raise e, w')
  end.

Definition raise {A} (e : exn) : M A := λ w, (Raise e, w).

(** A pure computation that may raise. *)
Definition lift {A} (r : result A) : M A := λ w, (r, w).

(** [try: body  except E: handler], for the exceptions [E] that [catches]
    accepts. *)
Definition try_except {A} (body : M A) (catches : exn → bool) (handler : M A)
    : M A := λ w,
  match body w with
  | (Raise e, w') => if catches e then handler w' else (Raise e, w')
  | r => r
  end.

Definition is_KeyError (e : exn) : bool :=
  match e with KeyError => true | _ => false end.

(** [sys.stderr.write(msg)], [sys.exit(code)], [print(...)] *)
Definition stderr_write (msg : string) : M unit := λ w,
  (Ok (), World (entropy w) (draws w) (stderr w ++ [msg]) (stdout w)).
Definition sys_exit {A} (code : nat) : M A := raise (SystemExit code).
Definition print (p : printed) : M unit := λ w,
  (Ok (), World (entropy w) (draws w) (stderr w) (stdout w ++ [p])).

(** [d[k]] on a dict. *)
Definition getitem {K V} `{Countable K} (d : gmap K V) (k : K) : M V :=
  match d !! k with
  | Some v => mret v
  | None => raise KeyError
  end.

(** [for x in xs: acc = body(acc, x)] *)
Fixpoint for_in {A B} (xs : list A) (body : B → A → M B) (acc : B) : M B :=
  match xs with
  | [] => mret acc
  | x :: xs' => acc' ← body acc x; for_in xs' body acc'
  end.

(** [[f(x) for x in xs]] *)
Fixpoint comprehension {A B} (f : A → M B) (xs : list A) : M (list B) :=
  match xs with
  | [] => mret []
  | x :: xs' => y ← f x; ys ← comprehension f xs'; mret (y :: ys)
  end.

(** [range(n)], [enumerate(xs)] *)
Definition range (n : nat) : list nat := seq 0 n.
Definition enumerate {A} (xs : list A) : list (nat * A) :=
  zip (seq 0 (length xs)) xs.

(** *** The random module *)

(** The world after one value has been taken from [src]. *)
Definition consume (src : source) (w : world) : world :=
  World (λ src', if decide (src' = src) then (λ i, entropy w src (S i))
                 else entropy w src')
        (draws w ++ [src]) (stderr w) (stdout w).

(** One draw below [n > 0] from [src]: the next value of the source,
    reduced. *)
Definition randbelow (src : source) (n : nat) : M nat := λ w,
  (Ok (entropy w src 0 mod n), consume src w).

(** [choice(seq)] of a generator reading [src]. *)
Definition choice {A} (src : source) (xs : list A) : M A :=
  match xs with
  | [] => raise IndexError
  | _ :: _ =>
      i ← randbelow src (length xs);
      match xs !! i with
      | Some x => mret x
      | None => raise IndexError
      end
  end.

(** [randint(a, b)] of a generator reading [src]. *)
Definition randint (src : source) (a b : nat) : M nat :=
  if decide (b < a) then raise ValueError
  else i ← randbelow src (b - a + 1); mret (a + i).

(** The value of the global [rng]: one of the two generator classes. *)
Inductive rng_class : Type := SystemRandom | Random.

(** [rng()]: an instance of the class, named by the source it reads. *)
Definition instantiate (rng : rng_class) : source :=
  match rng with
  | SystemRandom => OsEntropy
  | Random => FreshTwister
  end.

(** The module's start-up choice of [rng].  [has_SystemRandom] tells whether
    [random.SystemRandom] exists; [weak_allowed] whether XKCDPASS_ALLOW_WEAKRNG
    is in the environment or --allow-weak-rng among the arguments. *)
Definition select_rng (has_SystemRandom weak_allowed : bool) : M rng_class :=
  try_except
    (if has_SystemRandom then mret SystemRandom else raise AttributeError)
    (λ e, match e with AttributeError => true | _ => false end)
    (stderr_write ("WARNING: System does not support cryptographically "
                   +:+ "secure random number generator or you are using Python "
                   +:+ "version < 2.4." +:+ String "010" "");;
     if weak_allowed then
       stderr_write ("Continuing with less-secure generator."
                     +:+ String "010" "");;
       mret Random
     else raise AttributeError).

Definition DEFAULT_WORDFILE : string := "eff-long".
Definition ALLOWED_SYMBOLS : string := "!#$%&()*+,-.:;<=>?@[]^_{|}~".

(** ** The program *)

(** [wordlist_to_worddict]: one step of the loop.  [word[0]] raises
    IndexError on the empty word, outside what [except KeyError] handles;
    [worddict[c].append(word)] raises KeyError when the key is new. *)
Definition worddict_add (worddict : gmap ascii (list string)) (word : string)
    : result (gmap ascii (list string)) :=
  match Str.get 0 word with
  | None => Raise IndexError
  | Some c =>
      match worddict !! c with
      | Some bucket => Ok (<[c := bucket ++ [word]]> worddict)
      | None => Ok (<[c := [word]]> worddict)
      end
  end.

Fixpoint worddict_loop (wordlist : list string)
    (worddict : gmap ascii (list string)) : result (gmap ascii (list string)) :=
  match wordlist with
  | [] => Ok worddict
  | word :: rest => worddict_add worddict word ≫= worddict_loop rest
  end.

Definition wordlist_to_worddict (wordlist : list string)
    : result (gmap ascii (list string)) :=
  worddict_loop wordlist ∅.

(** The fields of [options] that the report reads.  [acrostic] is [None]
    for the default [False]. *)
Record options : Type := Options {
  opt_acrostic : option string;
  opt_numwords : nat
}.

(** Truth value of [acrostic]: [False] and the empty string are false. *)
Definition acrostic_set (acrostic : option string) : option string :=
  match acrostic with
  | Some (String c s) => Some (String c s)
  | _ => None
  end.

(** [math.log(length, 2)] is defined on positive arguments only. *)
Definition math_log2_defined (length : nat) : M unit :=
  match length with
  | 0 => raise ValueError
  | S _ => mret ()
  end.

(** The first part of [verbose_reports]: the pool size [length] and the
    word count [numwords]. *)
Definition candidate_pool (wordlist : list string) (opts : options)
    : M (nat * nat) :=
  match acrostic_set (opt_acrostic opts) with
  | Some acrostic =>
      worddict ← lift (wordlist_to_worddict wordlist);
      length ← for_in (Str.chars acrostic)
                 (λ length char,
                    mret (length + List.length (default [] (worddict !! char))))
                 0;
      mret (length, Str.len acrostic)
  | None => mret (List.length wordlist, opt_numwords opts)
  end.

Section Report.

(** The floating-point range: [entropy_fits length numwords] tells whether
    [int(bits * numwords)] is computed, with [bits = math.log(length, 2)] and
    [length >= 1].  It is not when [numwords] is too large to convert to a
    float or the product is infinite: both raise OverflowError. *)
Variable entropy_fits : nat → nat → bool.

Definition entropy_defined (length numwords : nat) : M unit :=
  if entropy_fits length numwords then mret () else raise OverflowError.

Definition verbose_reports (wordlist : list string) (opts : options) : M unit :=
  '(length, numwords) ← candidate_pool wordlist opts;
  math_log2_defined length;;
  print (WordListSize length);;
  entropy_defined length numwords;;
  print (EntropyEstimate numwords length);;
  print AssumingRandom.

End Report.

(** [s.lower()] etc. over a word list. *)
Definition lower_case (words : list string) : list string :=
  map Str.lower words.

Definition upper_case (words : list string) : list string :=
  map Str.upper words.

Definition first_upper_case (words : list string) : list string :=
  map Str.capitalize words.

Definition capitalize_case (words : list string) : list string :=
  map Str.capitalize words.

Definition sentence_case (words : list string) : list string :=
  map (λ '(i, w), if decide (i = 0) then Str.capitalize w else w)
      (enumerate words).

Definition alternating_case (words : list string) : list string :=
  map (λ '(i, word), if decide (i mod 2 = 0) then Str.upper word else word)
      (enumerate (lower_case words)).

Section Program.

(** The global [rng], and the Mersenne Twister's seeding: the values the
    shared generator delivers after [random.seed(a)]. *)
Variable rng : rng_class.
Variable mt_seed : string → stream.

(** [random.seed(a)] *)
Definition seed (a : string) : M unit := λ w,
  (Ok (),
   World (λ src, if decide (src = SharedTwister) then mt_seed a
                 else entropy w src)
         (draws w) (stderr w) (stdout w)).

(** The body of the loop of [find_acrostic]. *)
Definition find_acrostic_step (worddict : gmap ascii (list string))
    (words : list string) (letter : ascii) : M (list string) :=
  try_except
    (bucket ← getitem worddict letter;
     word ← choice (instantiate rng) bucket;
     mret (words ++ [word]))
    is_KeyError
    (stderr_write ("No words found starting with "
                   +:+ String letter "" +:+ String "010" "");;
     sys_exit 1).

Definition find_acrostic (acrostic : string)
    (worddict : gmap ascii (list string)) : M (list string) :=
  for_in (Str.chars acrostic) (find_acrostic_step worddict) [].

Definition choose_words (wordlist : list string) (numwords : nat)
    : M (list string) :=
  comprehension (λ i, choice (instantiate rng) wordlist) (range numwords).

Definition make_upper (testing : bool) (word : string) : M string :=
  (if testing then seed word else mret ());;
  b ← choice SharedTwister [true; false];
  if b : bool then mret (Str.upper word) else mret word.

Definition random_case (words : list string) (testing : bool)
    : M (list string) :=
  comprehension (make_upper testing) (lower_case words).

Definition CASE_METHODS : gmap string (list string → M (list string)) :=
  list_to_map
    [("sentence", λ words, mret (sentence_case words));
     ("alternating", λ words, mret (alternating_case words));
     ("upper", λ words, mret (upper_case words));
     ("lower", λ words, mret (lower_case words));
     ("random", λ words, random_case words false);
     ("first", λ words, mret (first_upper_case words));
     ("capitalize", λ words, mret (capitalize_case words))].

Definition set_case (words : list string) (method : string) (testing : bool)
    : M (list string) :=
  if bool_decide (method = "random") && testing then
    random_case words true
  else
    f ← getitem CASE_METHODS method; f words.

(** The two suffix loops of [gen_passwd]. *)
Definition gen_digits (num_digits : nat) : M string :=
  if decide (num_digits ≠ 0) then
    for_in (range num_digits)
      (λ digits i,
         d ← randint SharedTwister 0 9; mret (digits +:+ pretty d))
      ""
  else mret "".

Definition gen_symbols (num_symbols : nat) : M string :=
  if decide (num_symbols ≠ 0) then
    for_in (range num_symbols)
      (λ symbols i,
         k ← randint SharedTwister 0 (Str.len ALLOWED_SYMBOLS - 1);
         match Str.get k ALLOWED_SYMBOLS with
         | Some c => mret (symbols +:+ String c "")
         | None => raise IndexError
         end)
      ""
  else mret "".

(** The word selection of [gen_passwd]. *)
Definition select_words (wordlist : list string) (numwords : nat)
    (acrostic : option string) (worddict : gmap ascii (list string))
    : M (list string) :=
  match acrostic_set acrostic with
  | None => choose_words wordlist numwords
  | Some acrostic => find_acrostic acrostic worddict
  end.

(** The closure [gen_passwd] of [generate_xkcdpassword], with the
    variables it captures as arguments. *)
Definition gen_passwd (wordlist : list string) (numwords : nat)
    (acrostic : option string) (worddict : gmap ascii (list string))
    (delimiter : string) (case : string) (num_digits num_symbols : nat)
    : M string :=
  words ← select_words wordlist numwords acrostic worddict;
  cased ← set_case words case false;
  let pw := Str.join delimiter cased in
  digits ← gen_digits num_digits;
  symbols ← gen_symbols num_symbols;
  mret (pw +:+ digits +:+ symbols).

(** [generate_xkcdpassword] with [interactive=False]. *)
Definition generate_xkcdpassword (wordlist : list string) (numwords : nat)
    (acrostic : option string) (delimiter : string) (case : string)
    (num_digits num_symbols : nat) : M string :=
  worddict ←
    match acrostic_set acrostic with
    | Some _ => lift (wordlist_to_worddict wordlist)
    | None => mret ∅
    end;
  gen_passwd wordlist numwords acrostic worddict delimiter case
             num_digits num_symbols.

End Program.


(** ** Fixtures for the examples *)

(** A world whose operating-system source delivers 0, 1, 2, ... and whose
    shared twister delivers 1, 2, 0, 0, ... *)
Definition example_world : world :=
  World (λ src, match src with
                | OsEntropy => λ i, i
                | FreshTwister => λ i, 2 * i
                | SharedTwister => λ i, match i with 0 => 1 | 1 => 2 | _ => 0 end
                end)
        [] [] [].

(** A seeding for the examples: the stream starts at the length of the seed. *)
Definition example_seed (a : string) : stream := λ i, String.length a + i.

(** A floating-point range for the examples: word counts up to 1000 fit,
    as they do in double precision whatever the pool size. *)
Definition example_float_range (length numwords : nat) : bool :=
  bool_decide (numwords ≤ 1000).


(** ** The word file on disk *)

Module Path.

(** [os.path.isabs(p)] and [os.path.join(a, b)] on POSIX. *)
Definition isabs (p : string) : bool :=
  match p with
  | String "/" _ => true
  | _ => false
  end.

Definition join (a b : string) : string :=
  if isabs b then b
  else match Str.last_char a with
       | None | Some "/"%char => a +:+ b
       | Some _ => a +:+ "/" +:+ b
       end.

End Path.

(** The operating system, as [locate_wordfile] and [generate_wordlist] see
    it. *)
Record os_env : Type := OsEnv {
  static_dir : string;
    (* os.path.join(os.path.dirname(os.path.abspath(__file__)), 'static') *)
  expanduser : string → string;       (* os.path.expanduser *)
  isfile : string → bool;             (* os.path.isfile *)
  file_lines : string → list string
    (* the lines that iterating over open(path, encoding='utf-8') yields *)
}.

(** The candidate paths of [locate_wordfile], in the order it tries them. *)
Definition common_word_files (os : os_env) (wordfile : option string)
    : list string :=
  (match wordfile with
   | Some wordfile =>
       (* wordfile can be in static dir or provided as a complete path *)
       [Path.join (static_dir os) wordfile; expanduser os wordfile]
   | None => []
   end)
  ++ [Path.join (static_dir os) DEFAULT_WORDFILE;
      "/usr/share/cracklib/cracklib-small";
      "/usr/share/dict/cracklib-small";
      "/usr/dict/words";
      "/usr/share/dict/words"].

Definition locate_wordfile (os : os_env) (wordfile : option string)
    : option string :=
  List.find (isfile os) (common_word_files os wordfile).

(** The parsed command line, [parser.parse_args(argv[1:])]. *)
Record cli_options : Type := CliOptions {
  cli_wordfile : option string;
  cli_min_length : nat;
  cli_max_length : nat;
  cli_numwords : nat;
  cli_acrostic : option string;
  cli_interactive : bool;
  cli_valid_chars : charclass;
  cli_verbose : bool;
  cli_count : nat;
  cli_delimiter : string;
  cli_separator : string;
  cli_case : string;
  cli_num_digits : nat;
  cli_num_symbols : nat
}.

(** [options.numwords = n] *)
Definition set_numwords (o : cli_options) (n : nat) : cli_options :=
  CliOptions (cli_wordfile o) (cli_min_length o) (cli_max_length o) n
             (cli_acrostic o) (cli_interactive o) (cli_valid_chars o)
             (cli_verbose o) (cli_count o) (cli_delimiter o)
             (cli_separator o) (cli_case o) (cli_num_digits o)
             (cli_num_symbols o).

(** What [verbose_reports] reads of the options. *)
Definition report_options (o : cli_options) : options :=
  Options (cli_acrostic o) (cli_numwords o).

(** Truth value of a located path: [None] and the empty string are false. *)
Definition path_found (p : option string) : bool :=
  match p with
  | Some (String _ _) => true
  | _ => false
  end.

Definition validate_options (os : os_env) (o : cli_options) : M unit :=
  (if decide (cli_max_length o < cli_min_length o) then
     stderr_write ("Warning: maximum word length less than minimum. "
                   +:+ "Setting maximum equal to minimum." +:+ String "010" "")
   else mret ());;
  let wordfile := locate_wordfile os (cli_wordfile o) in
  if negb (path_found wordfile) then
    stderr_write ("Could not find a word file, or word file does "
                  +:+ "not exist." +:+ String "010" "");;
    sys_exit 1
  else mret ().

(** ** The terminal session *)

(** The exceptions of the interactive part, beside those above. *)
Inductive io_exn : Type :=
| Exn (e : exn)
| EOFError
| KeyboardInterrupt
| TypeError.

(** How a computation ends; [Unfinished] is the model's own: the rounds
    allotted to the accept loop were used up. *)
Inductive outcome (A : Type) : Type :=
| Returns (a : A)
| Raises (e : io_exn)
| Unfinished.
Arguments Returns {A} a.
Arguments Raises {A} e.
Arguments Unfinished {A}.

(** What the terminal delivers at a read: a line typed (without its
    newline) or an interrupt; after the last one, the end of the input. *)
Inductive input : Type :=
| Line (text : string)
| Interrupt.

Record session : Type := Session {
  sworld : world;          (* generators, diagnostic stream, report *)
  pending : list input;    (* what the terminal will deliver *)
  screen : list string     (* written to standard output, oldest first *)
}.

Definition IO (A : Type) : Type := session → outcome A * session.

Global Instance IO_ret : MRet IO := λ A a s, (Returns a, s).
Global Instance IO_bind : MBind IO := λ A B f m s,
  match m s with
  | (Returns a, s') => f a s'
  | (Raises e, s') => (Raises e, s')
  | (Unfinished, s') => (Unfinished, s')
  end.

Definition io_raise {A} (e : io_exn) : IO A := λ s, (Raises e, s).
Definition unfinished {A} : IO A := λ s, (Unfinished, s).

(** A computation of the pipeline, run in the session. *)
Definition run {A} (m : M A) : IO A := λ s,
  match m (sworld s) with
  | (Ok a, w') => (Returns a, Session w' (pending s) (screen s))
  | (Raise e, w') => (Raises (Exn e), Session w' (pending s) (screen s))
  end.

Definition io_try_except {A} (body : IO A) (catches : io_exn → bool)
    (handler : IO A) : IO A := λ s,
  match body s with
  | (Raises e, s') => if catches e then handler s' else (Raises e, s')
  | r => r
  end.

(** [sys.stdout.write(text)]; [print(text, end=e)] is [write (text +:+ e)]. *)
Definition write (text : string) : IO unit := λ s,
  (Returns (), Session (sworld s) (pending s) (screen s ++ [text])).

(** [raw_input(prompt)] *)
Definition raw_input (prompt : string) : IO string := λ s,
  let shown := screen s ++ [prompt] in
  match pending s with
  | [] => (Raises EOFError, Session (sworld s) [] shown)
  | Interrupt :: rest => (Raises KeyboardInterrupt, Session (sworld s) rest shown)
  | Line answer :: rest => (Returns answer, Session (sworld s) rest shown)
  end.

Definition is_cancel (e : io_exn) : bool :=
  match e with
  | KeyboardInterrupt | EOFError => true
  | _ => false
  end.

Definition is_ValueError (e : io_exn) : bool :=
  match e with
  | Exn ValueError => true
  | _ => false
  end.

Definition try_input {A} (prompt : string) (validate : string → IO A) : IO A :=
  answer ← io_try_except (raw_input prompt) is_cancel
              ((* user cancelled *)
               write (String "010" "");;
               io_raise (Exn (SystemExit 0)));
  (* validate input *)
  validate answer.

(** [str(b)] *)
Definition str_bool (b : bool) : string := if b then "True" else "False".

(** The input validator of the accept loop. *)
Definition accepted_validator (answer : string) : bool :=
  bool_decide (Str.strip (Str.lower answer) ∈ ["y"; "yes"]).

(** The passphrases that [n] successive calls of a generator return, and
    the world they leave; the calls stop at the first one that raises.  The
    statements about the loops of the program are given in its terms. *)
Fixpoint successive (gen : M string) (n : nat) (w : world)
    : list string * world :=
  match n with
  | 0 => ([], w)
  | S n' =>
      match gen w with
      | (Ok passwd, w1) =>
          let '(rest, w') := successive gen n' w1 in (passwd :: rest, w')
      | (Raise _, w1) => ([], w1)
      end
  end.

(** A computation that leaves the report's output channel as it finds it. *)
Definition keeps_stdout {A} (m : M A) : Prop :=
  ∀ w, stdout (m w).2 = stdout w.

(** The [while not accepted] loop of [generate_xkcdpassword], for at most
    [rounds] rounds. *)
Fixpoint accept_loop (rounds : nat) (gen_passwd : M string) : IO string :=
  match rounds with
  | 0 => unfinished
  | S rounds' =>
      passwd ← run gen_passwd;
      write ("Generated: " +:+ passwd +:+ String "010" "");;
      accepted ← try_input "Accept? [yN] "
                   (λ answer, mret (accepted_validator answer));
      write ("accepted " +:+ str_bool accepted +:+ String "010" "");;
      if accepted : bool then mret passwd else accept_loop rounds' gen_passwd
  end.

Section Interactive.

Variable rng : rng_class.
Variable mt_seed : string → stream.

(** [int(answer)]: the integer a string denotes, [None] where [int] raises
    ValueError. *)
Variable int_of : string → option Z.

(** The floating-point range of the report, see [entropy_defined]. *)
Variable entropy_fits : nat → nat → bool.

(** [generate_xkcdpassword] with both values of [interactive]. *)
Definition generate_xkcdpassword_io (rounds : nat) (wordlist : list string)
    (numwords : nat) (interactive : bool) (acrostic : option string)
    (delimiter : string) (case : string) (num_digits num_symbols : nat)
    : IO string :=
  (* generate the worddict if we are looking for acrostics *)
  worddict ←
    run (match acrostic_set acrostic with
         | Some _ => lift (wordlist_to_worddict wordlist)
         | None => mret ∅
         end);
  let gen := gen_passwd rng mt_seed wordlist numwords acrostic worddict
                        delimiter case num_digits num_symbols in
  (* useful if driving the logic from other code *)
  if negb interactive then run gen
  (* else, interactive session *)
  else accept_loop rounds gen.

(** Validate custom number of words input. *)
Definition n_words_validator (o : cli_options) (answer : string) : IO nat :=
  if decide (Str.len answer = 0) then mret (cli_numwords o)
  else
    io_try_except
      (match int_of answer with
       | None => io_raise (Exn ValueError)
       | Some number =>
           if decide (number < 1)%Z then io_raise (Exn ValueError)
           else mret (Z.to_nat number)
       end)
      is_ValueError
      (run (stderr_write ("Please enter a positive integer" +:+ String "010" ""));;
       io_raise (Exn (SystemExit 1))).

(** Returns the options with [numwords] as the run leaves it. *)
Definition initialize_interactive_run (o : cli_options) : IO cli_options :=
  match acrostic_set (cli_acrostic o) with
  | None =>
      let n_words_prompt :=
        "Enter number of words (default " +:+ pretty (cli_numwords o)
        +:+ "):" +:+ String "010" "" in
      numwords ← try_input n_words_prompt (n_words_validator o);
      mret (set_numwords o numwords)
  | Some acrostic => mret (set_numwords o (Str.len acrostic))
  end.

(** Generate the specified number of passwords and output them. *)
Fixpoint emit_loop (rounds : nat) (wordlist : list string) (o : cli_options)
    (count : nat) : IO unit :=
  match count with
  | 0 => mret ()
  | S count' =>
      passwd ← generate_xkcdpassword_io rounds wordlist (cli_numwords o)
                 (cli_interactive o) (cli_acrostic o) (cli_delimiter o)
                 (cli_case o) (cli_num_digits o) (cli_num_symbols o);
      write (passwd +:+ cli_separator o);;
      emit_loop rounds wordlist o count'
  end.

Definition emit_passwords (rounds : nat) (wordlist : list string)
    (o : cli_options) : IO unit :=
  emit_loop rounds wordlist o (cli_count o).

(** [generate_wordlist] from its argument [wordfile]: locate the file, open
    it, filter its lines.  [open(None)] raises TypeError. *)
Definition generate_wordlist_os (os : os_env) (wordfile : option string)
    (min_length max_length : nat) (valid_chars : charclass)
    : IO (list string) :=
  match locate_wordfile os wordfile with
  | Some path =>
      mret (generate_wordlist (file_lines os path) min_length max_length
                              valid_chars)
  | None => io_raise TypeError
  end.

(** [except SystemExit as exc: exit_status = exc.code] *)
Definition catch_SystemExit (body : IO nat) : IO nat := λ s,
  match body s with
  | (Raises (Exn (SystemExit code)), s') => (Returns code, s')
  | r => r
  end.

(** Mainline code, from the parsed options on. *)
Definition main (rounds : nat) (os : os_env) (o : cli_options) : IO nat :=
  catch_SystemExit
    (run (validate_options os o);;
     my_wordlist ← generate_wordlist_os os (cli_wordfile o) (cli_min_length o)
                     (cli_max_length o) (cli_valid_chars o);
     o ← (if cli_interactive o then initialize_interactive_run o else mret o);
     (if cli_verbose o then
        run (verbose_reports entropy_fits my_wordlist (report_options o))
      else mret ());;
     emit_passwords rounds my_wordlist o;;
     mret 0).

End Interactive.

(** ** Fixtures for the interactive examples *)

(** A file system with the bundled default list and one word list in the
    home directory. *)
Definition example_os : os_env :=
  OsEnv "/opt/xkcdpass/static"
        (λ p, match p with
              | String "~" rest => "/home/user" +:+ rest
              | _ => p
              end)
        (λ p, bool_decide (p ∈ ["/opt/xkcdpass/static/eff-long";
                                "/home/user/words.txt"]))
        (λ p, if bool_decide (p = "/home/user/words.txt")
              then ["apple" +:+ String "010" ""; "ant" +:+ String "010" "";
                    "bee" +:+ String "010" ""]
              else ["correct" +:+ String "010" ""; "horse" +:+ String "010" "";
                    "battery" +:+ String "010" ""; "staple" +:+ String "010" ""]).

(** Decimal digits only, for the examples. *)
Definition example_int (s : string) : option Z :=
  foldl (λ acc c, n ← acc; d ← Ascii.is_nat c; Some (10 * n + Z.of_nat d)%Z)
        (if decide (s = "") then None else Some 0%Z) (Str.chars s).

Definition example_options : cli_options :=
  CliOptions None 3 9 2 None false Dot false 2 "." (String "010" "")
             "sentence" 1 1.

Definition example_session (inputs : list input) : session :=
  Session example_world inputs [].

(** * Properties *)

(** ** Strings *)

Section StrFacts.

Lemma last_char_cons c s :
  Str.last_char (String c s) = match s with "" => Some c | _ => Str.last_char s end.
Proof. by destruct s. Qed.

Lemma rstrip_last s c :
  Str.last_char (Str.rstrip s) = Some c → Str.isspace c = false.
Proof.
  revert c. induction s as [|a s IH]; intros c; [done|].
  cbn [Str.rstrip]. destruct (Str.rstrip s) as [|b r] eqn:Hr.
  - destruct (Str.isspace a) eqn:Ha; [done|]. cbn. by intros [= <-].
  - rewrite last_char_cons. apply IH.
Qed.

Lemma strip_last line c :
  Str.last_char (Str.strip line) = Some c → Str.isspace c = false.
Proof. apply rstrip_last. Qed.

Lemma strip_no_final_newline line :
  Str.last_char (Str.strip line) ≠ Some "010"%char.
Proof. intros H. by apply strip_last in H. Qed.

Lemma len_chars s : Str.len s = length (Str.chars s).
Proof. induction s; cbn; [done|]. by f_equal. Qed.

Lemma app_cons c s t : String c s +:+ t = String c (s +:+ t).
Proof. reflexivity. Qed.

Lemma chars_app s t : Str.chars (s +:+ t) = Str.chars s ++ Str.chars t.
Proof.
  induction s as [|c s IH]; [done|]. rewrite app_cons. cbn. by f_equal.
Qed.

Lemma len_app s t : Str.len (s +:+ t) = Str.len s + Str.len t.
Proof. by rewrite !len_chars, chars_app, length_app. Qed.

Lemma get_chars i s : Str.get i s = Str.chars s !! i.
Proof.
  revert i. induction s as [|c s IH]; intros [|i]; cbn; by auto.
Qed.

Lemma app_empty_r s : s +:+ "" = s.
Proof. induction s as [|c s IH]; [done|]. rewrite app_cons. by f_equal. Qed.

End StrFacts.

(** ** The filter's regular expression *)

(** On a word that does not end in a newline, [^cls{lo,hi}$] accepts exactly
    the words of [lo] to [hi] characters, all of the class. *)
Lemma rep_match_iff cls lo hi s :
  Str.last_char s ≠ Some "010"%char →
  rep_match cls lo hi s = true ↔
    lo ≤ Str.len s ≤ hi ∧ Forall (λ c, cc_match cls c = true) (Str.chars s).
Proof.
  revert lo hi. induction s as [|c s IH]; intros lo hi Hnl.
  - unfold Str.len. cbn. destruct lo; cbn; split; try done.
    + intros _. split; [lia|constructor].
    + intros [? _]. lia.
  - assert (Hd : (match lo with 0 => at_dollar (String c s) | S _ => false end)
                 = false).
    { destruct lo; [|done]. cbn. destruct s; [|done].
      destruct (Ascii.eqb_spec c "010"%char) as [->|]; [|done]. by destruct Hnl. }
    cbn [rep_match]. rewrite Hd, orb_false_l.
    assert (Hs : Str.last_char s ≠ Some "010"%char).
    { intros Hs. apply Hnl. rewrite last_char_cons. by destruct s. }
    destruct hi as [|hi].
    + split; [done|]. unfold Str.len. cbn. intros [? _]. lia.
    + rewrite andb_true_iff, (IH _ _ Hs). cbn [Str.chars].
      rewrite Forall_cons. unfold Str.len. cbn [String.length].
      destruct lo; cbn [pred]; intuition lia.
Qed.

(** ** Word list filter *)

Lemma filter_fold_elem (f : string → string) (P : string → bool)
    (lines : list string) (acc : gset string) (x : string) :
  x ∈ foldl (λ words line,
               if P (f line) then {[ f line ]} ∪ words else words) acc lines
  ↔ x ∈ acc ∨ ∃ line, line ∈ lines ∧ x = f line ∧ P x = true.
Proof.
  revert acc. induction lines as [|l lines IH]; intros acc; cbn.
  - split; [by left|]. intros [?|(l & Hl & _)]; [done|]. by apply elem_of_nil in Hl.
  - rewrite IH. destruct (P (f l)) eqn:HP.
    + rewrite elem_of_union, elem_of_singleton. split.
      * intros [[->|?]|(l' & ? & ? & ?)]; eauto.
        -- right. exists l. split; [left|done].
        -- right. exists l'. split; [by right|done].
      * intros [?|(l' & [->|?]%elem_of_cons & ? & ?)]; eauto.
    + split.
      * intros [?|(l' & ? & ? & ?)]; eauto.
        right. exists l'. split; [by right|done].
      * intros [?|(l' & [->|?]%elem_of_cons & -> & ?)]; eauto. congruence.
Qed.

(** Membership in the filter's result, with the bounds as the code uses
    them. *)
Lemma generate_wordlist_elem wordfile min_length max_length valid_chars w :
  w ∈ generate_wordlist wordfile min_length max_length valid_chars ↔
    (∃ line, line ∈ wordfile ∧ w = Str.strip line) ∧
    min_length ≤ Str.len w ≤ max min_length max_length ∧
    Forall (λ c, cc_match valid_chars c = true) (Str.chars w).
Proof.
  unfold generate_wordlist. rewrite elem_of_elements.
  rewrite (filter_fold_elem Str.strip
             (re_match (Regexp valid_chars min_length _))).
  rewrite elem_of_empty. unfold re_match; cbn [re_class re_lo re_hi].
  assert (Hmax : (if decide (max_length < min_length) then min_length
                  else max_length) = max min_length max_length)
    by (case_decide; lia).
  rewrite Hmax. split.
  - intros [[]|(line & Hin & -> & Hm)].
    apply rep_match_iff in Hm; [|apply strip_no_final_newline].
    split; [eauto|done].
  - intros ((line & Hin & ->) & Hlen & Hall). right. exists line.
    split; [done|]. split; [done|].
    apply rep_match_iff; [apply strip_no_final_newline|done].
Qed.

(** C1.  Whenever [min_length <= max_length], the list that
    [generate_wordlist] returns has no duplicates, and each of its words is
    the trimmed text of a line of the word source, has between [min_length]
    and [max_length] characters, and is accepted by the anchored pattern:
    all its characters belong to the character class. *)
Theorem generate_wordlist_sound wordfile min_length max_length valid_chars :
  min_length ≤ max_length →
  NoDup (generate_wordlist wordfile min_length max_length valid_chars) ∧
  ∀ w, w ∈ generate_wordlist wordfile min_length max_length valid_chars →
    (∃ line, line ∈ wordfile ∧ w = Str.strip line) ∧
    min_length ≤ Str.len w ≤ max_length ∧
    re_match (Regexp valid_chars min_length max_length) w = true ∧
    Forall (λ c, cc_match valid_chars c = true) (Str.chars w).
Proof.
  intros Hle. split; [apply NoDup_elements|].
  intros w Hw. pose proof Hw as Hw'.
  apply generate_wordlist_elem in Hw as ((line & Hin & ->) & Hlen & Hall).
  replace (max min_length max_length) with max_length in Hlen by lia.
  split; [eauto|]. split; [done|]. split; [|done].
  apply rep_match_iff; [apply strip_no_final_newline|done].
Qed.

Lemma generate_wordlist_sound_witness :
  NoDup (generate_wordlist ["apple"; "  bee "; "ant"; "apple"; "mushroom"]
                           3 5 (Bracket false [("a", "z")%char])) ∧
  ∀ w, w ∈ generate_wordlist ["apple"; "  bee "; "ant"; "apple"; "mushroom"]
                             3 5 (Bracket false [("a", "z")%char]) →
    (∃ line, line ∈ ["apple"; "  bee "; "ant"; "apple"; "mushroom"]
             ∧ w = Str.strip line) ∧
    3 ≤ Str.len w ≤ 5 ∧
    re_match (Regexp (Bracket false [("a", "z")%char]) 3 5) w = true ∧
    Forall (λ c, cc_match (Bracket false [("a", "z")%char]) c = true)
           (Str.chars w).
Proof.
  apply (generate_wordlist_sound
           ["apple"; "  bee "; "ant"; "apple"; "mushroom"] 3 5
           (Bracket false [("a", "z")%char])).
  lia.
Defined.

(** C7.  When [min_length > max_length] the filter works with the maximum
    raised to the minimum: it returns what the bounds [min_length,
    min_length] return, and a trimmed line is accepted exactly when it has
    [min_length] characters, all of the character class. *)
Theorem generate_wordlist_min_exceeds_max wordfile min_length max_length
    valid_chars :
  min_length > max_length →
  generate_wordlist wordfile min_length max_length valid_chars
    = generate_wordlist wordfile min_length min_length valid_chars ∧
  ∀ w, w ∈ generate_wordlist wordfile min_length max_length valid_chars ↔
    (∃ line, line ∈ wordfile ∧ w = Str.strip line) ∧
    Str.len w = min_length ∧
    Forall (λ c, cc_match valid_chars c = true) (Str.chars w).
Proof.
  intros Hgt. split.
  - unfold generate_wordlist. repeat case_decide; try lia. done.
  - intros w. rewrite generate_wordlist_elem.
    replace (max min_length max_length) with min_length by lia.
    intuition lia.
Qed.

Lemma generate_wordlist_min_exceeds_max_witness :
  generate_wordlist ["apple"; "  bee "; "ant"; "to"] 3 2 Dot
    = generate_wordlist ["apple"; "  bee "; "ant"; "to"] 3 3 Dot ∧
  ∀ w, w ∈ generate_wordlist ["apple"; "  bee "; "ant"; "to"] 3 2 Dot ↔
    (∃ line, line ∈ ["apple"; "  bee "; "ant"; "to"] ∧ w = Str.strip line) ∧
    Str.len w = 3 ∧
    Forall (λ c, cc_match Dot c = true) (Str.chars w).
Proof.
  apply (generate_wordlist_min_exceeds_max
           ["apple"; "  bee "; "ant"; "to"] 3 2 Dot).
  lia.
Defined.

(** ** The monad *)

Lemma bind_run {A B} (m : M A) (f : A → M B) (w : world) :
  (m ≫= f) w = match m w with
               | (Ok a, w') => f a w'
               | (Raise e, w') => (Raise e, w')
               end.
Proof. reflexivity. Qed.

Lemma bind_ok {A B} (m : M A) (f : A → M B) (w w' : world) (a : A) :
  m w = (Ok a, w') → (m ≫= f) w = f a w'.
Proof. intros H. by rewrite bind_run, H. Qed.

Lemma bind_raise {A B} (m : M A) (f : A → M B) (w w' : world) (e : exn) :
  m w = (Raise e, w') → (m ≫= f) w = (Raise e, w').
Proof. intros H. by rewrite bind_run, H. Qed.

Lemma for_in_app {A B} (xs ys : list A) (body : B → A → M B) (acc : B) w :
  for_in (xs ++ ys) body acc w = (for_in xs body acc ≫= for_in ys body) w.
Proof.
  revert acc w. induction xs as [|x xs IH]; intros acc w; [done|].
  cbn [for_in app]. rewrite !bind_run. destruct (body acc x w) as [[a|e] w1]; [|done].
  rewrite IH. by rewrite bind_run.
Qed.

(** ** Random draws *)

Lemma choice_ok {A} (src : source) (xs : list A) (w : world) :
  xs ≠ [] →
  ∃ x, choice src xs w = (Ok x, consume src w) ∧ x ∈ xs.
Proof.
  intros Hne. destruct xs as [|x0 xs]; [done|].
  unfold choice. rewrite bind_run. unfold randbelow.
  set (l := x0 :: xs). set (i := entropy w src 0 mod length l).
  assert (Hi : i < length l) by (apply Nat.mod_upper_bound; done).
  destruct (lookup_lt_is_Some_2 l i Hi) as [x Hx]. rewrite Hx.
  exists x. split; [done|]. by eapply list_elem_of_lookup_2.
Qed.

Lemma randint_ok (src : source) (a b : nat) (w : world) :
  a ≤ b →
  ∃ n, randint src a b w = (Ok n, consume src w) ∧ a ≤ n ≤ b.
Proof.
  intros Hab. unfold randint. case_decide; [lia|].
  rewrite bind_run. unfold randbelow.
  eexists. split; [reflexivity|].
  pose proof (Nat.mod_upper_bound (entropy w src 0) (b - a + 1)). lia.
Qed.

Lemma comprehension_choice (src : source) (wordlist : list string)
    (idx : list nat) (w : world) :
  wordlist ≠ [] →
  ∃ ws w', comprehension (λ _, choice src wordlist) idx w = (Ok ws, w') ∧
    length ws = length idx ∧ Forall (λ x, x ∈ wordlist) ws ∧
    draws w' = draws w ++ replicate (length idx) src ∧
    stderr w' = stderr w ∧ stdout w' = stdout w.
Proof.
  intros Hne. revert w. induction idx as [|i idx IH]; intros w.
  - exists [], w. cbn. by rewrite app_nil_r.
  - destruct (choice_ok src wordlist w Hne) as (x & Hx & Hin).
    destruct (IH (consume src w)) as (ws & w' & Hws & Hlen & Hall & Hd & He & Ho).
    exists (x :: ws), w'. cbn [comprehension].
    rewrite (bind_ok _ _ _ _ _ Hx), (bind_ok _ _ _ _ _ Hws).
    split; [done|]. split; [cbn; lia|]. split; [by constructor|].
    split; [|done]. rewrite Hd. cbn. by rewrite <- app_assoc.
Qed.

(** ** Word selection *)

(** C2.  On a non-empty word list [choose_words] returns a list of exactly
    [numwords] words, each a member of the word list; for [numwords = 0] it
    returns the empty list. *)
Theorem choose_words_count_and_membership (rng : rng_class)
    (wordlist : list string) (numwords : nat) (w : world) :
  wordlist ≠ [] →
  (∃ ws w', choose_words rng wordlist numwords w = (Ok ws, w') ∧
     length ws = numwords ∧ Forall (λ x, x ∈ wordlist) ws) ∧
  choose_words rng wordlist 0 w = (Ok [], w).
Proof.
  intros Hne. split; [|done].
  destruct (comprehension_choice (instantiate rng) wordlist (range numwords)
              w Hne) as (ws & w' & Hws & Hlen & Hall & _).
  exists ws, w'. split; [done|]. split; [|done].
  by rewrite Hlen; unfold range; rewrite length_seq.
Qed.

Lemma choose_words_count_and_membership_witness :
  (∃ ws w', choose_words SystemRandom ["correct"; "horse"; "battery"] 4
              example_world = (Ok ws, w') ∧
     length ws = 4 ∧
     Forall (λ x, x ∈ ["correct"; "horse"; "battery"]) ws) ∧
  choose_words SystemRandom ["correct"; "horse"; "battery"] 0 example_world
    = (Ok [], example_world).
Proof.
  apply (choose_words_count_and_membership SystemRandom
           ["correct"; "horse"; "battery"] 4 example_world).
  discriminate.
Defined.

(** ** Acrostic index *)

Lemma worddict_loop_lookup (wordlist : list string)
    (d0 d : gmap ascii (list string)) (c : ascii) :
  worddict_loop wordlist d0 = Ok d →
  d !! c = match d0 !! c, filter (λ word, Str.get 0 word = Some c) wordlist with
           | None, [] => None
           | o, l => Some (default [] o ++ l)
           end.
Proof.
  revert d0. induction wordlist as [|word rest IH]; intros d0.
  - cbn. intros [= <-]. destruct (d0 !! c); [|done]. cbn. by rewrite app_nil_r.
  - cbn [worddict_loop]. unfold worddict_add.
    destruct (Str.get 0 word) as [a|] eqn:Ha; [|done].
    set (d1 := match d0 !! a with
               | Some bucket => Ok (<[a:=bucket ++ [word]]> d0)
               | None => Ok (<[a:=[word]]> d0)
               end).
    assert (Hd1 : ∃ d', d1 = Ok d' ∧
              d' !! a = Some (default [] (d0 !! a) ++ [word]) ∧
              ∀ c', c' ≠ a → d' !! c' = d0 !! c').
    { subst d1. destruct (d0 !! a) as [bucket|]; eexists; (split; [done|]);
        (split; [by rewrite lookup_insert_eq|]);
        intros c' ?; by rewrite lookup_insert_ne. }
    destruct Hd1 as (d' & -> & Hsame & Hother).
    change (Ok d' ≫= worddict_loop rest) with (worddict_loop rest d').
    intros Hloop.
    rewrite (IH _ Hloop). destruct (decide (c = a)) as [->|Hne].
    + rewrite Hsame, filter_cons_True by done. cbn.
      rewrite <- app_assoc. cbn. by destruct (d0 !! a).
    + rewrite (Hother _ Hne), filter_cons_False by congruence. done.
Qed.

Lemma wordlist_to_worddict_lookup (wordlist : list string)
    (d : gmap ascii (list string)) (c : ascii) :
  wordlist_to_worddict wordlist = Ok d →
  d !! c = match filter (λ word, Str.get 0 word = Some c) wordlist with
           | [] => None
           | bucket => Some bucket
           end.
Proof.
  intros H. rewrite (worddict_loop_lookup _ _ _ c H), lookup_empty.
  by destruct (filter _ wordlist).
Qed.

Lemma worddict_loop_total (wordlist : list string)
    (d0 : gmap ascii (list string)) :
  Forall (λ word, word ≠ "") wordlist →
  ∃ d, worddict_loop wordlist d0 = Ok d.
Proof.
  intros Hall. revert d0. induction Hall as [|word rest Hw _ IH]; intros d0.
  - by exists d0.
  - cbn [worddict_loop]. unfold worddict_add.
    destruct word as [|a word]; [done|]. cbn [Str.get String.get].
    destruct (d0 !! a); cbn; apply IH.
Qed.

Lemma worddict_loop_empty_word (wordlist : list string)
    (d0 : gmap ascii (list string)) :
  "" ∈ wordlist → worddict_loop wordlist d0 = Raise IndexError.
Proof.
  revert d0. induction wordlist as [|word rest IH]; intros d0 Hin.
  - by apply elem_of_nil in Hin.
  - cbn [worddict_loop]. unfold worddict_add.
    destruct word as [|a word]; [done|]. cbn [Str.get String.get].
    apply elem_of_cons in Hin as [?|Hin]; [done|].
    destruct (d0 !! a); cbn; by apply IH.
Qed.

(** What [find_acrostic] relies on: in a dictionary built by
    [wordlist_to_worddict] every bucket is non-empty and holds words of the
    word list that begin with the bucket's key. *)
Lemma wordlist_to_worddict_bucket (wordlist : list string)
    (d : gmap ascii (list string)) (c : ascii) (bucket : list string) :
  wordlist_to_worddict wordlist = Ok d →
  d !! c = Some bucket →
  bucket ≠ [] ∧
  Forall (λ word, Str.get 0 word = Some c ∧ word ∈ wordlist) bucket.
Proof.
  intros Hd Hc. rewrite (wordlist_to_worddict_lookup _ _ c Hd) in Hc.
  assert (Hb : bucket = filter (λ word, Str.get 0 word = Some c) wordlist).
  { destruct (filter _ wordlist); by simplify_eq. }
  split.
  - intros ->. by destruct (filter _ wordlist).
  - apply Forall_forall. intros word Hin. rewrite Hb in Hin.
    by apply list_elem_of_filter in Hin.
Qed.

(** C10.  On a word list without empty entries [wordlist_to_worddict]
    returns a dictionary in which the bucket of a character is the sub-list,
    in input order, of the words that begin with it (no bucket when there is
    none), so that each word lies in the bucket of its first character and
    in no other.  An empty entry makes the first-character indexing raise
    IndexError, and the filter does return the empty word for a blank line
    when the minimum length is zero. *)
Theorem wordlist_to_worddict_buckets (wordlist : list string) :
  (Forall (λ word, word ≠ "") wordlist →
   ∃ worddict, wordlist_to_worddict wordlist = Ok worddict ∧
     (∀ c, worddict !! c =
           match filter (λ word, Str.get 0 word = Some c) wordlist with
           | [] => None
           | bucket => Some bucket
           end) ∧
     (∀ word, word ∈ wordlist →
        ∃ c, Str.get 0 word = Some c ∧
          ∀ c' bucket, worddict !! c' = Some bucket →
            (word ∈ bucket ↔ c' = c))) ∧
  ("" ∈ wordlist → wordlist_to_worddict wordlist = Raise IndexError) ∧
  (∀ wordfile max_length valid_chars line,
     line ∈ wordfile → Str.strip line = "" →
     "" ∈ generate_wordlist wordfile 0 max_length valid_chars).
Proof.
  split; [|split].
  - intros Hall. destruct (worddict_loop_total wordlist ∅ Hall) as [d Hd].
    exists d. split; [done|]. split.
    + intros c. by apply wordlist_to_worddict_lookup.
    + intros word Hin.
      assert (Hne : word ≠ "") by (by eapply Forall_forall in Hall).
      destruct word as [|c word]; [done|]. exists c. split; [done|].
      intros c' bucket Hb.
      rewrite (wordlist_to_worddict_lookup _ _ c' Hd) in Hb.
      assert (bucket = filter (λ w, Str.get 0 w = Some c') wordlist) as ->.
      { destruct (filter _ wordlist); by simplify_eq. }
      rewrite list_elem_of_filter. cbn. split; [by intros [[= ->] _]|].
      by intros ->.
  - apply worddict_loop_empty_word.
  - intros wordfile max_length valid_chars line Hin Hstrip.
    apply generate_wordlist_elem. split; [by exists line|].
    unfold Str.len. cbn. split; [lia|constructor].
Qed.

Lemma wordlist_to_worddict_buckets_witness :
  (∃ worddict, wordlist_to_worddict ["apple"; "bee"; "ant"] = Ok worddict ∧
     (∀ c, worddict !! c =
           match filter (λ word, Str.get 0 word = Some c)
                        ["apple"; "bee"; "ant"] with
           | [] => None
           | bucket => Some bucket
           end) ∧
     (∀ word, word ∈ ["apple"; "bee"; "ant"] →
        ∃ c, Str.get 0 word = Some c ∧
          ∀ c' bucket, worddict !! c' = Some bucket →
            (word ∈ bucket ↔ c' = c))) ∧
  wordlist_to_worddict ["apple"; ""; "ant"] = Raise IndexError ∧
  "" ∈ generate_wordlist ["apple"; "   "; "ant"] 0 9 Dot.
Proof.
  split; [|split].
  - apply (wordlist_to_worddict_buckets ["apple"; "bee"; "ant"]).
    repeat constructor; discriminate.
  - apply (wordlist_to_worddict_buckets ["apple"; ""; "ant"]).
    apply elem_of_cons; right; apply elem_of_cons; left; reflexivity.
  - apply (wordlist_to_worddict_buckets []) with (line := "   ").
    + apply elem_of_cons; right; apply elem_of_cons; left; reflexivity.
    + reflexivity.
Defined.

(** ** Acrostic selection *)

Section Acrostic.

Variable rng : rng_class.

Lemma find_acrostic_step_found (d : gmap ascii (list string))
    (words bucket : list string) (letter : ascii) (w : world) :
  d !! letter = Some bucket → bucket ≠ [] →
  ∃ word, find_acrostic_step rng d words letter w
            = (Ok (words ++ [word]), consume (instantiate rng) w)
          ∧ word ∈ bucket.
Proof.
  intros Hd Hne.
  destruct (choice_ok (instantiate rng) bucket w Hne) as (word & Hc & Hin).
  exists word. split; [|done].
  unfold find_acrostic_step, try_except, getitem. rewrite Hd.
  rewrite bind_run. cbn [mret M_ret]. rewrite bind_run, Hc. done.
Qed.

Lemma find_acrostic_step_missing (d : gmap ascii (list string))
    (words : list string) (letter : ascii) (w : world) :
  d !! letter = None →
  find_acrostic_step rng d words letter w
    = (Raise (SystemExit 1),
       World (entropy w) (draws w)
             (stderr w ++ ["No words found starting with "
                           +:+ String letter "" +:+ String "010" ""])
             (stdout w)).
Proof.
  intros Hd. unfold find_acrostic_step, try_except, getitem. rewrite Hd.
  done.
Qed.

(** All letters have a bucket: one word per letter, in order. *)
Lemma find_acrostic_loop_found (wordlist : list string)
    (d : gmap ascii (list string)) (letters : list ascii)
    (acc : list string) (w : world) :
  wordlist_to_worddict wordlist = Ok d →
  Forall (λ c, is_Some (d !! c)) letters →
  ∃ ws w', for_in letters (find_acrostic_step rng d) acc w
             = (Ok (acc ++ ws), w') ∧
    Forall2 (λ c word, Str.get 0 word = Some c ∧ word ∈ wordlist)
            letters ws ∧
    stderr w' = stderr w ∧
    draws w' = draws w ++ replicate (length letters) (instantiate rng).
Proof.
  intros Hd Hall. revert acc w.
  induction Hall as [|c letters [bucket Hc] _ IH]; intros acc w.
  - exists [], w. rewrite !app_nil_r. by repeat split; try constructor.
  - destruct (wordlist_to_worddict_bucket _ _ _ _ Hd Hc) as [Hne Hb].
    destruct (find_acrostic_step_found d acc bucket c w Hc Hne)
      as (word & Hstep & Hin).
    destruct (IH (acc ++ [word]) (consume (instantiate rng) w))
      as (ws & w' & Hrun & Hf & He & Hdr).
    exists (word :: ws), w'. cbn [for_in].
    rewrite (bind_ok _ _ _ _ _ Hstep), Hrun, <- app_assoc.
    split; [done|]. split; [|split; [done|]].
    + constructor; [|done]. by eapply Forall_forall in Hb.
    + rewrite Hdr. cbn. by rewrite <- app_assoc.
Qed.

(** Some letter has no bucket: the first such letter is reported and
    generation exits with status 1. *)
Lemma find_acrostic_loop_missing (wordlist : list string)
    (d : gmap ascii (list string)) (letters : list ascii)
    (acc : list string) (w : world) :
  wordlist_to_worddict wordlist = Ok d →
  Exists (λ c, d !! c = None) letters →
  ∃ c w', c ∈ letters ∧ d !! c = None ∧
    for_in letters (find_acrostic_step rng d) acc w
      = (Raise (SystemExit 1), w') ∧
    stderr w' = stderr w ++ ["No words found starting with "
                             +:+ String c "" +:+ String "010" ""].
Proof.
  intros Hd. revert acc w.
  induction letters as [|c letters IH]; intros acc w Hex.
  - by apply Exists_nil in Hex.
  - destruct (d !! c) as [bucket|] eqn:Hc.
    + apply Exists_cons in Hex as [Hex|Hex]; [congruence|].
      destruct (wordlist_to_worddict_bucket _ _ _ _ Hd Hc) as [Hne _].
      destruct (find_acrostic_step_found d acc bucket c w Hc Hne)
        as (word & Hstep & _).
      destruct (IH (acc ++ [word]) (consume (instantiate rng) w) Hex)
        as (c' & w' & Hin & Hnone & Hrun & He).
      exists c', w'. split; [by right|]. split; [done|].
      cbn [for_in]. by rewrite (bind_ok _ _ _ _ _ Hstep).
    + eexists c, _. split; [by left|]. split; [done|].
      cbn [for_in].
      rewrite (bind_raise _ _ _ _ _ (find_acrostic_step_missing d acc c w Hc)).
      done.
Qed.

End Acrostic.

(** C3.  With a dictionary built by [wordlist_to_worddict]: when every
    character of the acrostic has a bucket, [find_acrostic] returns one word
    per character, in order, the i-th word beginning with the i-th character
    (and writes no diagnostic); when some character has no bucket, it writes
    "No words found starting with" and that character to the diagnostic
    stream and exits with status 1, returning nothing. *)
Theorem find_acrostic_words_or_exit (rng : rng_class) (wordlist : list string)
    (worddict : gmap ascii (list string)) (acrostic : string) (w : world) :
  wordlist_to_worddict wordlist = Ok worddict →
  (Forall (λ c, is_Some (worddict !! c)) (Str.chars acrostic) →
   ∃ ws w', find_acrostic rng acrostic worddict w = (Ok ws, w') ∧
     length ws = Str.len acrostic ∧
     Forall2 (λ c word, Str.get 0 word = Some c ∧ word ∈ wordlist)
             (Str.chars acrostic) ws ∧
     stderr w' = stderr w) ∧
  (Exists (λ c, worddict !! c = None) (Str.chars acrostic) →
   ∃ c w', c ∈ Str.chars acrostic ∧ worddict !! c = None ∧
     find_acrostic rng acrostic worddict w = (Raise (SystemExit 1), w') ∧
     stderr w' = stderr w ++ ["No words found starting with "
                              +:+ String c "" +:+ String "010" ""]).
Proof.
  intros Hd. split.
  - intros Hall.
    destruct (find_acrostic_loop_found rng wordlist worddict _ [] w Hd Hall)
      as (ws & w' & Hrun & Hf & He & _).
    exists ws, w'. split; [done|]. split; [|done].
    rewrite len_chars. symmetry. by eapply Forall2_length.
  - intros Hex.
    by apply (find_acrostic_loop_missing rng wordlist worddict _ [] w Hd).
Qed.

Lemma find_acrostic_words_or_exit_witness :
  (∃ ws w', find_acrostic SystemRandom "ab"
              (list_to_map [("a"%char, ["apple"; "ant"]); ("b"%char, ["bee"])])
              example_world = (Ok ws, w') ∧
     length ws = Str.len "ab" ∧
     Forall2 (λ c word, Str.get 0 word = Some c
                        ∧ word ∈ ["apple"; "ant"; "bee"])
             (Str.chars "ab") ws ∧
     stderr w' = stderr example_world) ∧
  (∃ c w', c ∈ Str.chars "cab" ∧
     (list_to_map [("a"%char, ["apple"; "ant"]); ("b"%char, ["bee"])]
        : gmap ascii (list string)) !! c = None ∧
     find_acrostic SystemRandom "cab"
       (list_to_map [("a"%char, ["apple"; "ant"]); ("b"%char, ["bee"])])
       example_world = (Raise (SystemExit 1), w') ∧
     stderr w' = stderr example_world
                 ++ ["No words found starting with "
                     +:+ String c "" +:+ String "010" ""]).
Proof.
  split.
  - apply (find_acrostic_words_or_exit SystemRandom ["apple"; "ant"; "bee"]
             (list_to_map [("a"%char, ["apple"; "ant"]); ("b"%char, ["bee"])])
             "ab" example_world).
    + vm_compute. reflexivity.
    + repeat constructor; eexists; vm_compute; reflexivity.
  - apply (find_acrostic_words_or_exit SystemRandom ["apple"; "ant"; "bee"]
             (list_to_map [("a"%char, ["apple"; "ant"]); ("b"%char, ["bee"])])
             "cab" example_world).
    + vm_compute. reflexivity.
    + apply Exists_cons_hd. vm_compute. reflexivity.
Defined.

(** ** Case transforms *)



Lemma length_enumerate {A} (xs : list A) : length (enumerate xs) = length xs.
Proof.
  unfold enumerate. rewrite length_zip_with, length_seq. lia.
Qed.

Lemma sentence_case_tail (ws : list string) (k : nat) :
  map (λ '(i, w), if decide (i = 0) then Str.capitalize w else w)
      (zip (seq (S k) (length ws)) ws) = ws.
Proof.
  revert k. induction ws as [|w ws IH]; intros k; [done|].
  cbn [length seq zip zip_with map]. rewrite IH. by case_decide.
Qed.

Lemma sentence_case_unfold (words : list string) :
  sentence_case words = match words with
                        | [] => []
                        | w :: ws => Str.capitalize w :: ws
                        end.
Proof.
  destruct words as [|w ws]; [done|].
  unfold sentence_case, enumerate. cbn [length seq zip zip_with map].
  by rewrite sentence_case_tail.
Qed.


Section RandomCase.

Variable mt_seed : string → stream.

(** The coin flip [random.choice([True, False])]. *)
Lemma coin_flip (w : world) :
  choice SharedTwister [true; false] w
    = (Ok (bool_decide (entropy w SharedTwister 0 mod 2 = 0)),
       consume SharedTwister w).
Proof.
  unfold choice. rewrite bind_run. unfold randbelow. cbn [length].
  pose proof (Nat.mod_upper_bound (entropy w SharedTwister 0) 2) as Hlt.
  destruct (entropy w SharedTwister 0 mod 2) as [|[|n]]; [done|done|lia].
Qed.

(** The world after [random.seed(a)]. *)
Lemma seed_run (a : string) (w : world) :
  ∃ w', seed mt_seed a w = (Ok (), w') ∧
    entropy w' SharedTwister = mt_seed a ∧
    draws w' = draws w ∧ stderr w' = stderr w ∧ stdout w' = stdout w.
Proof. eexists. split; [reflexivity|]. by cbn. Qed.

Lemma make_upper_testing (word : string) (w : world) :
  ∃ w', make_upper mt_seed true word w
          = (Ok (if bool_decide (mt_seed word 0 mod 2 = 0)
                 then Str.upper word else word), w').
Proof.
  destruct (seed_run word w) as (w1 & Hseed & Hent & _).
  unfold make_upper. rewrite (bind_ok _ _ _ _ _ Hseed).
  rewrite (bind_ok _ _ _ _ _ (coin_flip w1)), Hent.
  destruct (bool_decide _); by eexists.
Qed.


Lemma comprehension_make_upper_testing (words : list string) (w : world) :
  ∃ w', comprehension (make_upper mt_seed true) words w
          = (Ok (map (λ word, if bool_decide (mt_seed word 0 mod 2 = 0)
                              then Str.upper word else word) words), w').
Proof.
  revert w. induction words as [|word words IH]; intros w; [by eexists|].
  destruct (make_upper_testing word w) as [w1 H1].
  destruct (IH w1) as [w' H']. exists w'. cbn [comprehension map].
  by rewrite (bind_ok _ _ _ _ _ H1), (bind_ok _ _ _ _ _ H').
Qed.


(** In test mode each word's casing is a function of its lower-cased
    text: the first value the twister delivers once seeded with it. *)
Lemma random_case_testing (words : list string) (w : world) :
  ∃ w', random_case mt_seed words true w
          = (Ok (map (λ word,
                   if bool_decide (mt_seed (Str.lower word) 0 mod 2 = 0)
                   then Str.upper (Str.lower word) else Str.lower word)
                 words), w').
Proof.
  destruct (comprehension_make_upper_testing (lower_case words) w)
    as [w' H]. exists w'. unfold random_case. rewrite H.
  unfold lower_case. by rewrite map_map.
Qed.


(** The dispatch through [CASE_METHODS] for the six pure methods. *)
Lemma set_case_pure (words : list string) (testing : bool) (w : world) :
  set_case mt_seed words "sentence" testing w = (Ok (sentence_case words), w) ∧
  set_case mt_seed words "alternating" testing w
    = (Ok (alternating_case words), w) ∧
  set_case mt_seed words "upper" testing w = (Ok (upper_case words), w) ∧
  set_case mt_seed words "lower" testing w = (Ok (lower_case words), w) ∧
  set_case mt_seed words "first" testing w
    = (Ok (first_upper_case words), w) ∧
  set_case mt_seed words "capitalize" testing w
    = (Ok (capitalize_case words), w).
Proof. by repeat split. Qed.

Lemma set_case_random (words : list string) (testing : bool) (w : world) :
  set_case mt_seed words "random" testing w
    = random_case mt_seed words testing w.
Proof. by destruct testing. Qed.

End RandomCase.








(** C9.  In the test mode of the random method the cased form of a word
    depends on the text of the word only: whenever the same word occurs in
    two invocations, at whatever positions, among whatever other words and
    whatever the state of the generators, both invocations return the same
    cased form for it. *)
Theorem random_case_testing_deterministic (mt_seed : string → stream)
    (words1 words2 : list string) (w1 w2 : world) (i j : nat) (word : string) :
  words1 !! i = Some word →
  words2 !! j = Some word →
  ∃ cased1 cased2 w1' w2' result,
    set_case mt_seed words1 "random" true w1 = (Ok cased1, w1') ∧
    set_case mt_seed words2 "random" true w2 = (Ok cased2, w2') ∧
    random_case mt_seed words1 true w1 = (Ok cased1, w1') ∧
    random_case mt_seed words2 true w2 = (Ok cased2, w2') ∧
    cased1 !! i = Some result ∧ cased2 !! j = Some result.
Proof.
  intros H1 H2.
  destruct (random_case_testing mt_seed words1 w1) as [w1' Hr1].
  destruct (random_case_testing mt_seed words2 w2) as [w2' Hr2].
  eexists _, _, w1', w2', _. rewrite !set_case_random.
  split; [exact Hr1|]. split; [exact Hr2|]. split; [exact Hr1|].
  split; [exact Hr2|].
  rewrite !list_lookup_fmap, H1, H2. done.
Qed.

Lemma random_case_testing_deterministic_witness :
  ∃ cased1 cased2 w1' w2' result,
    set_case example_seed ["correct"; "horse"] "random" true example_world
      = (Ok cased1, w1') ∧
    set_case example_seed ["staple"; "battery"; "horse"] "random" true
      (consume SharedTwister example_world) = (Ok cased2, w2') ∧
    random_case example_seed ["correct"; "horse"] true example_world
      = (Ok cased1, w1') ∧
    random_case example_seed ["staple"; "battery"; "horse"] true
      (consume SharedTwister example_world) = (Ok cased2, w2') ∧
    cased1 !! 1 = Some result ∧ cased2 !! 2 = Some result.
Proof.
  apply (random_case_testing_deterministic example_seed
           ["correct"; "horse"] ["staple"; "battery"; "horse"]
           example_world (consume SharedTwister example_world) 1 2 "horse");
    reflexivity.
Defined.

(** ** Passphrase assembly *)

Lemma pretty_digit (d : nat) :
  d ≤ 9 → ∃ c, pretty d = String c "" ∧ c ∈ Str.chars "0123456789".
Proof.
  intros Hd.
  do 10 (destruct d as [|d];
         [eexists; split; [vm_compute; reflexivity|];
          repeat (apply elem_of_cons; first [left; reflexivity | right])|]).
  lia.
Qed.

Lemma allowed_symbol (k : nat) :
  k ≤ Str.len ALLOWED_SYMBOLS - 1 →
  ∃ c, Str.get k ALLOWED_SYMBOLS = Some c ∧ c ∈ Str.chars ALLOWED_SYMBOLS.
Proof.
  intros Hk. rewrite get_chars.
  destruct (lookup_lt_is_Some_2 (Str.chars ALLOWED_SYMBOLS) k) as [c Hc].
  { rewrite <- len_chars. change (Str.len ALLOWED_SYMBOLS) with 27 in *. lia. }
  exists c. split; [done|]. by eapply list_elem_of_lookup_2.
Qed.

Lemma digits_loop (idx : list nat) (acc : string) (w : world) :
  ∃ ds w',
    for_in idx (λ digits (_ : nat),
                  d ← randint SharedTwister 0 9; mret (digits +:+ pretty d))
           acc w = (Ok (acc +:+ ds), w') ∧
    Str.len ds = length idx ∧
    Forall (λ c, c ∈ Str.chars "0123456789") (Str.chars ds) ∧
    draws w' = draws w ++ replicate (length idx) SharedTwister ∧
    stderr w' = stderr w.
Proof.
  revert acc w. induction idx as [|i idx IH]; intros acc w.
  - exists "", w. cbn [for_in]. rewrite app_empty_r, app_nil_r.
    by repeat split; try constructor.
  - destruct (randint_ok SharedTwister 0 9 w) as (d & Hd & Hr); [lia|].
    destruct (pretty_digit d) as (c & Hp & Hc); [lia|].
    destruct (IH (acc +:+ pretty d) (consume SharedTwister w))
      as (ds & w' & Hrun & Hlen & Hall & Hdr & He).
    exists (String c ds), w'. cbn [for_in].
    rewrite bind_run, bind_run, Hd. cbn [mret M_ret]. rewrite Hrun, Hp.
    split; [|split; [|split; [|split]]].
    + f_equal. f_equal. clear. induction acc as [|a acc IH]; [done|].
      rewrite !app_cons. by f_equal.
    + unfold Str.len in *. cbn. by rewrite Hlen.
    + by constructor.
    + rewrite Hdr. cbn. by rewrite <- app_assoc.
    + done.
Qed.

Lemma symbols_loop (idx : list nat) (acc : string) (w : world) :
  ∃ ss w',
    for_in idx (λ symbols (_ : nat),
                  k ← randint SharedTwister 0 (Str.len ALLOWED_SYMBOLS - 1);
                  match Str.get k ALLOWED_SYMBOLS with
                  | Some c => mret (symbols +:+ String c "")
                  | None => raise IndexError
                  end)
           acc w = (Ok (acc +:+ ss), w') ∧
    Str.len ss = length idx ∧
    Forall (λ c, c ∈ Str.chars ALLOWED_SYMBOLS) (Str.chars ss) ∧
    draws w' = draws w ++ replicate (length idx) SharedTwister ∧
    stderr w' = stderr w.
Proof.
  revert acc w. induction idx as [|i idx IH]; intros acc w.
  - exists "", w. cbn [for_in]. rewrite app_empty_r, app_nil_r.
    by repeat split; try constructor.
  - destruct (randint_ok SharedTwister 0 (Str.len ALLOWED_SYMBOLS - 1) w)
      as (k & Hk & Hr); [lia|].
    destruct (allowed_symbol k) as (c & Hg & Hc); [lia|].
    destruct (IH (acc +:+ String c "") (consume SharedTwister w))
      as (ss & w' & Hrun & Hlen & Hall & Hdr & He).
    exists (String c ss), w'. cbn [for_in].
    rewrite bind_run, bind_run, Hk, Hg. cbn [mret M_ret]. rewrite Hrun.
    split; [|split; [|split; [|split]]].
    + f_equal. f_equal. clear. induction acc as [|a acc IH]; [done|].
      rewrite !app_cons. by f_equal.
    + unfold Str.len in *. cbn. by rewrite Hlen.
    + by constructor.
    + rewrite Hdr. cbn. by rewrite <- app_assoc.
    + done.
Qed.

Lemma gen_digits_run (num_digits : nat) (w : world) :
  ∃ digits w', gen_digits num_digits w = (Ok digits, w') ∧
    Str.len digits = num_digits ∧
    Forall (λ c, c ∈ Str.chars "0123456789") (Str.chars digits) ∧
    draws w' = draws w ++ replicate num_digits SharedTwister ∧
    stderr w' = stderr w.
Proof.
  unfold gen_digits. case_decide as Hn.
  - destruct (digits_loop (range num_digits) "" w)
      as (ds & w' & Hrun & Hlen & Hall & Hdr & He).
    unfold range in *. rewrite length_seq in *. by exists ds, w'.
  - assert (num_digits = 0) as -> by lia. exists "", w.
    rewrite app_nil_r. by repeat split; try constructor.
Qed.

Lemma gen_symbols_run (num_symbols : nat) (w : world) :
  ∃ symbols w', gen_symbols num_symbols w = (Ok symbols, w') ∧
    Str.len symbols = num_symbols ∧
    Forall (λ c, c ∈ Str.chars ALLOWED_SYMBOLS) (Str.chars symbols) ∧
    draws w' = draws w ++ replicate num_symbols SharedTwister ∧
    stderr w' = stderr w.
Proof.
  unfold gen_symbols. case_decide as Hn.
  - destruct (symbols_loop (range num_symbols) "" w)
      as (ss & w' & Hrun & Hlen & Hall & Hdr & He).
    unfold range in *. rewrite length_seq in *. by exists ss, w'.
  - assert (num_symbols = 0) as -> by lia. exists "", w.
    rewrite app_nil_r. by repeat split; try constructor.
Qed.

(** The length of a joined list: the words, and one delimiter between each
    two of them. *)
Lemma len_join (sep : string) (ws : list string) :
  Str.len (Str.join sep ws)
    = sum_list (Str.len <$> ws) + (length ws - 1) * Str.len sep.
Proof.
  induction ws as [|w ws IH]; [done|]. destruct ws as [|w' ws].
  - cbn. unfold Str.len. lia.
  - change (Str.join sep (w :: w' :: ws))
      with (w +:+ sep +:+ Str.join sep (w' :: ws)).
    rewrite !len_app, IH. cbn [fmap list_fmap sum_list length].
    unfold id. rewrite !Nat.sub_succ, !Nat.sub_0_r. cbn [Nat.mul]. lia.
Qed.

Section Assembly.

Variable rng : rng_class.
Variable mt_seed : string → stream.

(** Once the words are selected and cased, [gen_passwd] returns: the two
    suffix loops never fail. *)
Lemma gen_passwd_run (wordlist : list string) (numwords : nat)
    (acrostic : option string) (worddict : gmap ascii (list string))
    (delimiter case : string) (num_digits num_symbols : nat)
    (w w1 w2 : world) (words cased : list string) :
  select_words rng wordlist numwords acrostic worddict w = (Ok words, w1) →
  set_case mt_seed words case false w1 = (Ok cased, w2) →
  ∃ digits symbols w',
    gen_passwd rng mt_seed wordlist numwords acrostic worddict delimiter
               case num_digits num_symbols w
      = (Ok (Str.join delimiter cased +:+ digits +:+ symbols), w') ∧
    (Str.len digits = num_digits ∧
     Forall (λ c, c ∈ Str.chars "0123456789") (Str.chars digits)) ∧
    (Str.len symbols = num_symbols ∧
     Forall (λ c, c ∈ Str.chars ALLOWED_SYMBOLS) (Str.chars symbols)) ∧
    draws w' = draws w2 ++ replicate num_digits SharedTwister
                        ++ replicate num_symbols SharedTwister ∧
    stderr w' = stderr w2.
Proof.
  intros Hsel Hcase.
  destruct (gen_digits_run num_digits w2)
    as (digits & w3 & Hd & Hdl & Hda & Hdd & Hde).
  destruct (gen_symbols_run num_symbols w3)
    as (symbols & w' & Hs & Hsl & Hsa & Hsd & Hse).
  exists digits, symbols, w'. unfold gen_passwd.
  rewrite (bind_ok _ _ _ _ _ Hsel), (bind_ok _ _ _ _ _ Hcase).
  rewrite (bind_ok _ _ _ _ _ Hd), (bind_ok _ _ _ _ _ Hs).
  split; [done|]. split; [done|]. split; [done|].
  split; [|congruence]. by rewrite Hsd, Hdd, <- app_assoc.
Qed.

(** Plain mode with the default case method: which source serves which
    draw. *)
Lemma plain_passwd_draws (wordlist : list string) (numwords : nat)
    (delimiter : string) (num_digits num_symbols : nat) (w : world) :
  wordlist ≠ [] →
  ∃ pw w',
    generate_xkcdpassword rng mt_seed wordlist numwords None delimiter
                          "sentence" num_digits num_symbols w = (Ok pw, w') ∧
    draws w' = draws w ++ replicate numwords (instantiate rng)
                       ++ replicate num_digits SharedTwister
                       ++ replicate num_symbols SharedTwister.
Proof.
  intros Hne.
  destruct (comprehension_choice (instantiate rng) wordlist (range numwords)
              w Hne) as (words & w1 & Hsel & _ & _ & Hdr & _).
  unfold range in Hdr. rewrite length_seq in Hdr.
  destruct (set_case_pure mt_seed words false w1) as (Hcase & _).
  destruct (gen_passwd_run wordlist numwords None ∅ delimiter "sentence"
              num_digits num_symbols w w1 w1 words _ Hsel Hcase)
    as (digits & symbols & w' & Hrun & _ & _ & Hdr' & _).
  eexists _, w'. split; [exact Hrun|]. by rewrite Hdr', Hdr, <- !app_assoc.
Qed.

End Assembly.

(** C5.  Whatever words were selected and cased, [gen_passwd] returns the
    cased words joined by the delimiter, then the digits, then the symbols:
    as many digits as asked for, each one of 0-9, and as many symbols as
    asked for, each one of [ALLOWED_SYMBOLS].  The joined words take one
    delimiter between each two words and none after the last.  The cased
    words Foo and Bar with delimiter ".", digits 12 and symbol ! give
    Foo.Bar12!. *)
Theorem gen_passwd_assembly (rng : rng_class) (mt_seed : string → stream)
    (wordlist : list string) (numwords : nat) (acrostic : option string)
    (worddict : gmap ascii (list string)) (delimiter case : string)
    (num_digits num_symbols : nat) (w w1 w2 : world)
    (words cased : list string) :
  select_words rng wordlist numwords acrostic worddict w = (Ok words, w1) →
  set_case mt_seed words case false w1 = (Ok cased, w2) →
  (∃ digits symbols w',
     gen_passwd rng mt_seed wordlist numwords acrostic worddict delimiter
                case num_digits num_symbols w
       = (Ok (Str.join delimiter cased +:+ digits +:+ symbols), w') ∧
     (Str.len digits = num_digits ∧
      Forall (λ c, c ∈ Str.chars "0123456789") (Str.chars digits)) ∧
     (Str.len symbols = num_symbols ∧
      Forall (λ c, c ∈ Str.chars ALLOWED_SYMBOLS) (Str.chars symbols))) ∧
  Str.len (Str.join delimiter cased)
    = sum_list (Str.len <$> cased) + (length cased - 1) * Str.len delimiter ∧
  Str.join "." ["Foo"; "Bar"] +:+ "12" +:+ "!" = "Foo.Bar12!" ∧
  (gen_passwd SystemRandom mt_seed ["foo"; "Bar"] 2 None ∅ "." "sentence" 2 1
              example_world).1 = Ok "Foo.Bar12!".
Proof.
  intros Hsel Hcase. split; [|split; [apply len_join|by split]].
  destruct (gen_passwd_run rng mt_seed wordlist numwords acrostic worddict
              delimiter case num_digits num_symbols w w1 w2 words cased
              Hsel Hcase) as (digits & symbols & w' & Hrun & Hd & Hs & _).
  by exists digits, symbols, w'.
Qed.

Lemma gen_passwd_assembly_witness :
  (∃ digits symbols w',
     gen_passwd SystemRandom example_seed ["apple"; "ant"; "bee"] 3
                (Some "ba")
                (list_to_map [("a"%char, ["apple"; "ant"]); ("b"%char, ["bee"])])
                "-" "upper" 3 2 example_world
       = (Ok (Str.join "-" ["BEE"; "ANT"] +:+ digits +:+ symbols), w') ∧
     (Str.len digits = 3 ∧
      Forall (λ c, c ∈ Str.chars "0123456789") (Str.chars digits)) ∧
     (Str.len symbols = 2 ∧
      Forall (λ c, c ∈ Str.chars ALLOWED_SYMBOLS) (Str.chars symbols))) ∧
  Str.len (Str.join "-" ["BEE"; "ANT"])
    = sum_list (Str.len <$> ["BEE"; "ANT"])
      + (length ["BEE"; "ANT"] - 1) * Str.len "-" ∧
  Str.join "." ["Foo"; "Bar"] +:+ "12" +:+ "!" = "Foo.Bar12!" ∧
  (gen_passwd SystemRandom example_seed ["foo"; "Bar"] 2 None ∅ "." "sentence"
              2 1 example_world).1 = Ok "Foo.Bar12!".
Proof.
  eapply (gen_passwd_assembly SystemRandom example_seed
            ["apple"; "ant"; "bee"] 3 (Some "ba")
            (list_to_map [("a"%char, ["apple"; "ant"]); ("b"%char, ["bee"])])
            "-" "upper" 3 2 example_world _ _ ["bee"; "ant"] ["BEE"; "ANT"]).
  - vm_compute. reflexivity.
  - vm_compute. reflexivity.
Defined.

(** C4.  With the default generator ([random.SystemRandom] exists, no
    opt-in), one passphrase of one word, one digit and one symbol takes the
    word draw from the operating system's source, and the digit draw and the
    symbol draw from the module's shared Mersenne Twister, which is not a
    secure source. *)
Theorem default_rng_suffix_draws (mt_seed : string → stream) (w : world) :
  select_rng true false w = (Ok SystemRandom, w) ∧
  (∃ pw w',
     generate_xkcdpassword SystemRandom mt_seed ["correct"] 1 None "."
                           "sentence" 1 1 w = (Ok pw, w') ∧
     draws w' = draws w ++ [OsEntropy; SharedTwister; SharedTwister]) ∧
  secure OsEntropy = true ∧ secure SharedTwister = false.
Proof.
  split; [done|]. split; [|done].
  destruct (plain_passwd_draws SystemRandom mt_seed ["correct"] 1 "." 1 1 w)
    as (pw & w' & Hrun & Hdr); [done|].
  by exists pw, w'.
Qed.

(** ** Entropy report *)

Lemma for_in_pure {A B} (xs : list A) (f : B → A → B) (acc : B) (w : world) :
  for_in xs (λ acc x, mret (f acc x)) acc w = (Ok (foldl f acc xs), w).
Proof.
  revert acc. induction xs as [|x xs IH]; intros acc; [done|].
  cbn [for_in foldl]. rewrite bind_run. cbn [mret M_ret]. apply IH.
Qed.

(** Computing the pool size touches neither the generators nor the
    streams. *)
Lemma candidate_pool_world (wordlist : list string) (opts : options)
    (w : world) :
  (candidate_pool wordlist opts w).2 = w.
Proof.
  unfold candidate_pool. destruct (acrostic_set _); [|done].
  rewrite bind_run. unfold lift.
  destruct (wordlist_to_worddict wordlist); [|done].
  rewrite bind_run, for_in_pure. done.
Qed.

(** What [verbose_reports] does once the pool size is known. *)
Lemma verbose_reports_run (entropy_fits : nat → nat → bool)
    (wordlist : list string) (opts : options) (w : world)
    (length numwords : nat) :
  (candidate_pool wordlist opts w).1 = Ok (length, numwords) →
  verbose_reports entropy_fits wordlist opts w
  = match length with
    | 0 => (Raise ValueError, w)
    | S _ =>
        if entropy_fits length numwords then
          (Ok (), World (entropy w) (draws w) (stderr w)
                        (stdout w ++ [WordListSize length;
                                      EntropyEstimate numwords length;
                                      AssumingRandom]))
        else
          (Raise OverflowError,
           World (entropy w) (draws w) (stderr w)
                 (stdout w ++ [WordListSize length]))
    end.
Proof.
  intros Hpool. pose proof (candidate_pool_world wordlist opts w) as Hw.
  unfold verbose_reports. rewrite bind_run.
  destruct (candidate_pool wordlist opts w) as [r w1]. cbn in Hpool, Hw.
  subst r w1. destruct length as [|n]; [done|].
  unfold math_log2_defined, entropy_defined, mbind, M_bind, print, mret, M_ret.
  cbn. destruct (entropy_fits (S n) numwords); cbn; [|done].
  by rewrite <- !app_assoc.
Qed.

(** C8, as the code has it.  When the effective candidate pool size is one
    (and likewise for every positive size) and the entropy estimate is
    within the floating-point range, [verbose_reports] does not fail: it
    prints its three-line report for that pool size and returns, writing
    nothing to the diagnostic stream and drawing nothing. *)
Theorem verbose_reports_positive_pool (entropy_fits : nat → nat → bool)
    (wordlist : list string) (opts : options) (w : world)
    (length numwords : nat) :
  (candidate_pool wordlist opts w).1 = Ok (length, numwords) →
  1 ≤ length →
  entropy_fits length numwords = true →
  verbose_reports entropy_fits wordlist opts w
    = (Ok (), World (entropy w) (draws w) (stderr w)
                    (stdout w ++ [WordListSize length;
                                  EntropyEstimate numwords length;
                                  AssumingRandom])).
Proof.
  intros Hpool Hlen Hfits.
  rewrite (verbose_reports_run _ _ _ _ length numwords Hpool), Hfits.
  destruct length; [lia|done].
Qed.

Lemma verbose_reports_positive_pool_witness :
  verbose_reports example_float_range ["apple"; "ant"; "bee"]
                  (Options (Some "b") 3) example_world
    = (Ok (), World (entropy example_world) (draws example_world)
                    (stderr example_world)
                    (stdout example_world
                     ++ [WordListSize 1; EntropyEstimate 1 1; AssumingRandom])).
Proof.
  apply (verbose_reports_positive_pool example_float_range
           ["apple"; "ant"; "bee"] (Options (Some "b") 3) example_world 1 1).
  - vm_compute. reflexivity.
  - lia.
  - reflexivity.
Defined.

(** At a pool of one word and four words asked for, an estimate of zero
    bits, [verbose_reports] does not fail at all, with or without a
    diagnostic. *)
Lemma verbose_reports_single_word_no_failure :
  ¬ ∃ e w', verbose_reports example_float_range ["correct"] (Options None 4)
                            example_world
              = (Raise e, w').
Proof. intros (e & w' & H). vm_compute in H. discriminate H. Qed.

(** At an empty pool the logarithm's domain error leaves [verbose_reports]
    unhandled, before anything is printed. *)
Lemma verbose_reports_empty_pool (entropy_fits : nat → nat → bool)
    (opts : options) (w : world) :
  acrostic_set (opt_acrostic opts) = None →
  verbose_reports entropy_fits [] opts w = (Raise ValueError, w).
Proof. intros H. unfold verbose_reports, candidate_pool. by rewrite H. Qed.

(** Outside the floating-point range the conversion's OverflowError leaves
    [verbose_reports] unhandled as well, after the first line of the report
    and without a diagnostic. *)
Lemma verbose_reports_overflow (entropy_fits : nat → nat → bool)
    (wordlist : list string) (opts : options) (w : world)
    (length numwords : nat) :
  (candidate_pool wordlist opts w).1 = Ok (length, numwords) →
  1 ≤ length →
  entropy_fits length numwords = false →
  verbose_reports entropy_fits wordlist opts w
    = (Raise OverflowError,
       World (entropy w) (draws w) (stderr w)
             (stdout w ++ [WordListSize length])).
Proof.
  intros Hpool Hlen Hfits.
  rewrite (verbose_reports_run _ _ _ _ length numwords Hpool), Hfits.
  destruct length; [lia|done].
Qed.

(** ** The report's channel *)

(** Only [print] writes to the channel of [verbose_reports]: the pipeline
    and the option validation leave it as they find it, whether they return
    or raise. *)
Lemma keeps_bind {A B} (m : M A) (f : A → M B) :
  keeps_stdout m → (∀ a, keeps_stdout (f a)) → keeps_stdout (m ≫= f).
Proof.
  intros Hm Hf w. rewrite bind_run. specialize (Hm w).
  destruct (m w) as [[a|e] w1]; cbn in *; [|done]. by rewrite Hf.
Qed.

Lemma keeps_ret {A} (a : A) : keeps_stdout (mret a : M A).
Proof. done. Qed.

Lemma keeps_raise {A} (e : exn) : keeps_stdout (raise e : M A).
Proof. done. Qed.

Lemma keeps_lift {A} (r : result A) : keeps_stdout (lift r).
Proof. done. Qed.

Lemma keeps_stderr_write (msg : string) : keeps_stdout (stderr_write msg).
Proof. done. Qed.

Lemma keeps_try_except {A} (body : M A) (catches : exn → bool)
    (handler : M A) :
  keeps_stdout body → keeps_stdout handler →
  keeps_stdout (try_except body catches handler).
Proof.
  intros Hb Hh w. unfold try_except. specialize (Hb w).
  destruct (body w) as [[a|e] w1]; cbn in *; [done|].
  destruct (catches e); [by rewrite Hh|done].
Qed.

Lemma keeps_for_in {A B} (xs : list A) (body : B → A → M B) (acc : B) :
  (∀ acc x, keeps_stdout (body acc x)) → keeps_stdout (for_in xs body acc).
Proof.
  intros Hb. revert acc. induction xs as [|x xs IH]; intros acc; [done|].
  cbn [for_in]. by apply keeps_bind.
Qed.

Lemma keeps_comprehension {A B} (f : A → M B) (xs : list A) :
  (∀ x, keeps_stdout (f x)) → keeps_stdout (comprehension f xs).
Proof.
  intros Hf. induction xs as [|x xs IH]; [done|].
  cbn [comprehension]. apply keeps_bind; [done|]. intros y.
  apply keeps_bind; [done|]. intros ys. apply keeps_ret.
Qed.

Lemma keeps_choice {A} (src : source) (xs : list A) :
  keeps_stdout (choice src xs).
Proof.
  destruct xs as [|x xs]; [done|]. unfold choice.
  apply keeps_bind; [done|]. intros i. by destruct (_ !! i).
Qed.

Lemma keeps_randint (src : source) (a b : nat) :
  keeps_stdout (randint src a b).
Proof.
  unfold randint. case_decide; [done|]. apply keeps_bind; [done|].
  intros i. apply keeps_ret.
Qed.

Lemma keeps_getitem {K V} `{Countable K} (d : gmap K V) (k : K) :
  keeps_stdout (getitem d k).
Proof. unfold getitem. by destruct (d !! k). Qed.

Section Channel.

Variable rng : rng_class.
Variable mt_seed : string → stream.

Lemma keeps_find_acrostic (acrostic : string)
    (worddict : gmap ascii (list string)) :
  keeps_stdout (find_acrostic rng acrostic worddict).
Proof.
  apply keeps_for_in. intros words letter. apply keeps_try_except.
  - apply keeps_bind; [apply keeps_getitem|]. intros bucket.
    apply keeps_bind; [apply keeps_choice|]. intros word. apply keeps_ret.
  - apply keeps_bind; [apply keeps_stderr_write|]. intros _.
    apply keeps_raise.
Qed.

Lemma keeps_choose_words (wordlist : list string) (numwords : nat) :
  keeps_stdout (choose_words rng wordlist numwords).
Proof. apply keeps_comprehension. intros i. apply keeps_choice. Qed.

Lemma keeps_random_case (words : list string) (testing : bool) :
  keeps_stdout (random_case mt_seed words testing).
Proof.
  apply keeps_comprehension. intros word. unfold make_upper.
  apply keeps_bind; [by destruct testing|]. intros _.
  apply keeps_bind; [apply keeps_choice|]. by intros [].
Qed.

Lemma keeps_case_method (method : string)
    (f : list string → M (list string)) (words : list string) :
  CASE_METHODS mt_seed !! method = Some f → keeps_stdout (f words).
Proof.
  intros Hf. apply elem_of_list_to_map_2 in Hf.
  repeat (apply elem_of_cons in Hf as [Hf|Hf];
          [injection Hf as _ ->;
           first [apply keeps_random_case | apply keeps_ret]|]).
  by apply elem_of_nil in Hf.
Qed.

Lemma keeps_set_case (words : list string) (method : string)
    (testing : bool) :
  keeps_stdout (set_case mt_seed words method testing).
Proof.
  unfold set_case. destruct (_ && _); [apply keeps_random_case|].
  intros w. rewrite bind_run. unfold getitem.
  destruct (CASE_METHODS mt_seed !! method) as [f|] eqn:Hf; [|done].
  apply (keeps_case_method method f words Hf).
Qed.

Lemma keeps_gen_digits (num_digits : nat) :
  keeps_stdout (gen_digits num_digits).
Proof.
  unfold gen_digits. case_decide; [|done]. apply keeps_for_in.
  intros digits i. apply keeps_bind; [apply keeps_randint|].
  intros d. apply keeps_ret.
Qed.

Lemma keeps_gen_symbols (num_symbols : nat) :
  keeps_stdout (gen_symbols num_symbols).
Proof.
  unfold gen_symbols. case_decide; [|done]. apply keeps_for_in.
  intros symbols i. apply keeps_bind; [apply keeps_randint|].
  intros k. by destruct (Str.get k ALLOWED_SYMBOLS).
Qed.

Lemma keeps_gen_passwd (wordlist : list string) (numwords : nat)
    (acrostic : option string) (worddict : gmap ascii (list string))
    (delimiter case : string) (num_digits num_symbols : nat) :
  keeps_stdout (gen_passwd rng mt_seed wordlist numwords acrostic worddict
                           delimiter case num_digits num_symbols).
Proof.
  unfold gen_passwd. apply keeps_bind.
  { unfold select_words. destruct (acrostic_set acrostic);
      [apply keeps_find_acrostic|apply keeps_choose_words]. }
  intros words. apply keeps_bind; [apply keeps_set_case|]. intros cased.
  apply keeps_bind; [apply keeps_gen_digits|]. intros digits.
  apply keeps_bind; [apply keeps_gen_symbols|]. intros symbols.
  apply keeps_ret.
Qed.

Lemma keeps_generate_xkcdpassword (wordlist : list string) (numwords : nat)
    (acrostic : option string) (delimiter case : string)
    (num_digits num_symbols : nat) :
  keeps_stdout (generate_xkcdpassword rng mt_seed wordlist numwords acrostic
                                      delimiter case num_digits num_symbols).
Proof.
  unfold generate_xkcdpassword. apply keeps_bind.
  { destruct (acrostic_set acrostic); [apply keeps_lift|apply keeps_ret]. }
  intros worddict. apply keeps_gen_passwd.
Qed.

End Channel.

Lemma keeps_validate_options (os : os_env) (o : cli_options) :
  keeps_stdout (validate_options os o).
Proof.
  unfold validate_options. apply keeps_bind; [by case_decide|]. intros _.
  destruct (negb _); [|done].
  apply keeps_bind; [apply keeps_stderr_write|]. intros _. apply keeps_raise.
Qed.

(** Successive calls of a generator that leaves the channel alone. *)
Lemma successive_stdout (gen : M string) (n : nat) (w : world) :
  keeps_stdout gen → stdout (successive gen n w).2 = stdout w.
Proof.
  intros Hgen. revert w. induction n as [|n IH]; intros w; [done|].
  cbn [successive]. specialize (Hgen w).
  destruct (gen w) as [[pw|e] w1]; cbn in *; [|done].
  specialize (IH w1). destruct (successive gen n w1) as [rest w'].
  cbn in *. congruence.
Qed.

Lemma successive_S (gen : M string) (n : nat) (w w1 w' : world)
    (passwd : string) (rest : list string) :
  gen w = (Ok passwd, w1) →
  successive gen n w1 = (rest, w') →
  successive gen (S n) w = (passwd :: rest, w').
Proof. intros Hg Hs. cbn [successive]. by rewrite Hg, Hs. Qed.

(** * Further properties of the pipeline *)

(** ** Word list filter *)

(** X1.  A word is in the list that [generate_wordlist] returns exactly
    when it is the trimmed text of some line of the word source, has at
    least [min_length] and at most [max(min_length, max_length)] characters,
    and all its characters belong to the character class: nothing that
    qualifies is left out. *)
Theorem generate_wordlist_exact (wordfile : list string)
    (min_length max_length : nat) (valid_chars : charclass) (w : string) :
  w ∈ generate_wordlist wordfile min_length max_length valid_chars ↔
    (∃ line, line ∈ wordfile ∧ w = Str.strip line) ∧
    min_length ≤ Str.len w ≤ max min_length max_length ∧
    Forall (λ c, cc_match valid_chars c = true) (Str.chars w).
Proof. apply generate_wordlist_elem. Qed.

(** X2.  Two word sources with the same lines, in whatever order and
    however often repeated, give the same words: the results are
    permutations of each other. *)
Theorem generate_wordlist_same_lines (wordfile1 wordfile2 : list string)
    (min_length max_length : nat) (valid_chars : charclass) :
  (∀ line, line ∈ wordfile1 ↔ line ∈ wordfile2) →
  generate_wordlist wordfile1 min_length max_length valid_chars
    ≡ₚ generate_wordlist wordfile2 min_length max_length valid_chars.
Proof.
  intros Hsame. apply NoDup_Permutation; try apply NoDup_elements.
  intros w. rewrite !generate_wordlist_elem.
  split; intros ((line & Hin & ->) & Hrest); (split; [|done]);
    exists line; (split; [by apply Hsame|done]).
Qed.

Lemma generate_wordlist_same_lines_witness :
  generate_wordlist ["apple"; "bee"] 3 5 Dot
    ≡ₚ generate_wordlist ["bee"; "apple"; "bee"] 3 5 Dot.
Proof.
  apply (generate_wordlist_same_lines ["apple"; "bee"] ["bee"; "apple"; "bee"]
           3 5 Dot).
  intros line. rewrite !elem_of_cons, !elem_of_nil. tauto.
Defined.

(** ** Word selection *)

(** X3.  Asked for at least one word from an empty word list,
    [choose_words] raises IndexError at the first draw, before any source
    has delivered a value. *)
Theorem choose_words_empty_wordlist (rng : rng_class) (numwords : nat)
    (w : world) :
  numwords ≠ 0 →
  choose_words rng [] numwords w = (Raise IndexError, w).
Proof. intros Hn. destruct numwords; [done|]. reflexivity. Qed.

Lemma choose_words_empty_wordlist_witness :
  choose_words SystemRandom [] 3 example_world = (Raise IndexError, example_world).
Proof.
  apply (choose_words_empty_wordlist SystemRandom 3 example_world). lia.
Defined.

(** X4.  [choose_words] takes exactly one value per word from the source
    behind [rng] and from no other source, and writes nothing. *)
Theorem choose_words_effects (rng : rng_class) (wordlist : list string)
    (numwords : nat) (w : world) :
  wordlist ≠ [] →
  ∃ ws w', choose_words rng wordlist numwords w = (Ok ws, w') ∧
    draws w' = draws w ++ replicate numwords (instantiate rng) ∧
    stderr w' = stderr w ∧ stdout w' = stdout w.
Proof.
  intros Hne.
  destruct (comprehension_choice (instantiate rng) wordlist (range numwords)
              w Hne) as (ws & w' & Hws & _ & _ & Hd & He & Ho).
  unfold range in Hd. rewrite length_seq in Hd. by exists ws, w'.
Qed.

Lemma choose_words_effects_witness :
  ∃ ws w', choose_words SystemRandom ["correct"; "horse"] 3 example_world
             = (Ok ws, w') ∧
    draws w' = draws example_world ++ replicate 3 (instantiate SystemRandom) ∧
    stderr w' = stderr example_world ∧ stdout w' = stdout example_world.
Proof.
  apply (choose_words_effects SystemRandom ["correct"; "horse"] 3 example_world).
  discriminate.
Defined.

(** X5.  [find_acrostic] stops at the first character of the acrostic that
    has no bucket: it reports that character, after one draw for each
    character before it, and exits with status 1. *)
Theorem find_acrostic_first_missing (rng : rng_class) (wordlist : list string)
    (worddict : gmap ascii (list string)) (acrostic : string)
    (before after : list ascii) (c : ascii) (w : world) :
  wordlist_to_worddict wordlist = Ok worddict →
  Str.chars acrostic = before ++ c :: after →
  Forall (λ c', is_Some (worddict !! c')) before →
  worddict !! c = None →
  ∃ w', find_acrostic rng acrostic worddict w = (Raise (SystemExit 1), w') ∧
    stderr w' = stderr w ++ ["No words found starting with "
                             +:+ String c "" +:+ String "010" ""] ∧
    draws w' = draws w ++ replicate (length before) (instantiate rng).
Proof.
  intros Hd Hchars Hbefore Hc. unfold find_acrostic. rewrite Hchars, for_in_app.
  destruct (find_acrostic_loop_found rng wordlist worddict before [] w Hd Hbefore)
    as (ws & w1 & Hrun & _ & He & Hdr).
  rewrite (bind_ok _ _ _ _ _ Hrun). cbn [for_in].
  rewrite (bind_raise _ _ _ _ _
             (find_acrostic_step_missing rng worddict _ c w1 Hc)).
  eexists. split; [reflexivity|]. cbn. by rewrite He, Hdr.
Qed.

Lemma find_acrostic_first_missing_witness :
  ∃ w', find_acrostic SystemRandom "bad"
          (list_to_map [("a"%char, ["apple"; "ant"]); ("b"%char, ["bee"])])
          example_world = (Raise (SystemExit 1), w') ∧
    stderr w' = stderr example_world
                ++ ["No words found starting with "
                    +:+ String "d" "" +:+ String "010" ""] ∧
    draws w' = draws example_world
               ++ replicate (length ["b"; "a"]%char) (instantiate SystemRandom).
Proof.
  apply (find_acrostic_first_missing SystemRandom ["apple"; "ant"; "bee"]
           (list_to_map [("a"%char, ["apple"; "ant"]); ("b"%char, ["bee"])])
           "bad" ["b"; "a"]%char [] "d"%char example_world).
  - vm_compute. reflexivity.
  - reflexivity.
  - repeat constructor; eexists; vm_compute; reflexivity.
  - vm_compute. reflexivity.
Defined.

(** ** Case methods *)

Section CaseEffects.

Variable mt_seed : string → stream.

Lemma make_upper_effects (testing : bool) (word : string) (w : world) :
  ∃ cased w', make_upper mt_seed testing word w = (Ok cased, w') ∧
    (cased = word ∨ cased = Str.upper word) ∧
    draws w' = draws w ++ [SharedTwister] ∧
    stderr w' = stderr w ∧ stdout w' = stdout w.
Proof.
  unfold make_upper. destruct testing.
  - destruct (seed_run mt_seed word w) as (w1 & Hseed & _ & Hd & He & Ho).
    rewrite (bind_ok _ _ _ _ _ Hseed), (bind_ok _ _ _ _ _ (coin_flip w1)).
    destruct (bool_decide _); eexists _, _; (split; [reflexivity|]); cbn;
      rewrite Hd, He, Ho; auto.
  - rewrite bind_run. cbn [mret M_ret].
    rewrite (bind_ok _ _ _ _ _ (coin_flip w)).
    destruct (bool_decide _); eexists _, _; (split; [reflexivity|]); cbn; auto.
Qed.

Lemma comprehension_make_upper_effects (testing : bool) (words : list string)
    (w : world) :
  ∃ cased w', comprehension (make_upper mt_seed testing) words w
                = (Ok cased, w') ∧
    Forall2 (λ word c, c = word ∨ c = Str.upper word) words cased ∧
    draws w' = draws w ++ replicate (length words) SharedTwister ∧
    stderr w' = stderr w ∧ stdout w' = stdout w.
Proof.
  revert w. induction words as [|word words IH]; intros w.
  - exists [], w. rewrite app_nil_r. by repeat split; try constructor.
  - destruct (make_upper_effects testing word w)
      as (c & w1 & H1 & Hc & Hd1 & He1 & Ho1).
    destruct (IH w1) as (cs & w' & H' & Hf & Hd & He & Ho).
    exists (c :: cs), w'. cbn [comprehension].
    rewrite (bind_ok _ _ _ _ _ H1), (bind_ok _ _ _ _ _ H').
    split; [done|]. split; [by constructor|]. split; [|split; congruence].
    rewrite Hd, Hd1. cbn. by rewrite <- app_assoc.
Qed.

Lemma random_case_effects (testing : bool) (words : list string) (w : world) :
  ∃ cased w', random_case mt_seed words testing w = (Ok cased, w') ∧
    Forall2 (λ word c, c = Str.lower word ∨ c = Str.upper (Str.lower word))
            words cased ∧
    draws w' = draws w ++ replicate (length words) SharedTwister ∧
    stderr w' = stderr w ∧ stdout w' = stdout w.
Proof.
  destruct (comprehension_make_upper_effects testing (lower_case words) w)
    as (cased & w' & Hrun & Hf & Hd & He & Ho).
  exists cased, w'. split; [done|]. unfold lower_case in *.
  rewrite length_map in Hd. split; [|done].
  by apply Forall2_fmap_l in Hf.
Qed.

(** The names of the dispatch table. *)
Lemma CASE_METHODS_unknown (method : string) :
  method ∉ ["sentence"; "alternating"; "upper"; "lower"; "random";
            "first"; "capitalize"] →
  CASE_METHODS mt_seed !! method = None.
Proof. intros Hm. by apply not_elem_of_list_to_map_1. Qed.

(** A known method always returns, with as many words as it is given; only
    the random method draws, once per word, from the shared twister. *)
Lemma set_case_known (words : list string) (method : string) (w : world) :
  method ∈ ["sentence"; "alternating"; "upper"; "lower"; "random";
            "first"; "capitalize"] →
  ∃ cased w', set_case mt_seed words method false w = (Ok cased, w') ∧
    length cased = length words ∧
    draws w' = draws w
               ++ replicate (if bool_decide (method = "random")
                             then length words else 0) SharedTwister ∧
    stderr w' = stderr w.
Proof.
  intros Hm. destruct (set_case_pure mt_seed words false w)
    as (Hs & Ha & Hu & Hl & Hf & Hc).
  repeat (apply elem_of_cons in Hm as [->|Hm]);
    try (by apply elem_of_nil in Hm).
  - eexists _, _. split; [apply Hs|]. rewrite sentence_case_unfold.
    cbn. rewrite app_nil_r. by destruct words.
  - eexists _, _. split; [apply Ha|]. unfold alternating_case, lower_case.
    rewrite length_map, length_enumerate, length_map. cbn.
    by rewrite app_nil_r.
  - eexists _, _. split; [apply Hu|]. cbn. rewrite app_nil_r.
    split; [apply length_map|done].
  - eexists _, _. split; [apply Hl|]. cbn. rewrite app_nil_r.
    split; [apply length_map|done].
  - rewrite set_case_random.
    destruct (random_case_effects false words w)
      as (cased & w' & Hrun & Hf2 & Hd & He & _).
    exists cased, w'. split; [done|]. split; [|by split].
    symmetry. by eapply Forall2_length.
  - eexists _, _. split; [apply Hf|]. cbn. rewrite app_nil_r.
    split; [apply length_map|done].
  - eexists _, _. split; [apply Hc|]. cbn. rewrite app_nil_r.
    split; [apply length_map|done].
Qed.

End CaseEffects.

Lemma set_case_unknown (mt_seed : string → stream) (words : list string)
    (method : string) (testing : bool) (w : world) :
  method ∉ ["sentence"; "alternating"; "upper"; "lower"; "random";
            "first"; "capitalize"] →
  set_case mt_seed words method testing w = (Raise KeyError, w).
Proof.
  intros Hm. unfold set_case.
  rewrite bool_decide_eq_false_2.
  - cbn [andb]. rewrite bind_run. unfold getitem.
    by rewrite (CASE_METHODS_unknown mt_seed method Hm).
  - intros ->. apply Hm. by repeat (apply elem_of_cons; first [by left|right]).
Qed.

(** X6.  [set_case] knows the seven names of [CASE_METHODS] and no other:
    for any other method name it raises KeyError and leaves the words, the
    generators and the streams alone. *)
Theorem set_case_unknown_method (mt_seed : string → stream)
    (words : list string) (method : string) (testing : bool) (w : world) :
  method ∉ ["sentence"; "alternating"; "upper"; "lower"; "random";
            "first"; "capitalize"] →
  set_case mt_seed words method testing w = (Raise KeyError, w).
Proof. apply set_case_unknown. Qed.

Lemma set_case_unknown_method_witness :
  set_case example_seed ["correct"; "horse"] "title" false example_world
    = (Raise KeyError, example_world).
Proof.
  apply (set_case_unknown_method example_seed ["correct"; "horse"] "title"
           false example_world).
  intros H. repeat (apply elem_of_cons in H as [H|H]; [discriminate H|]).
  apply elem_of_nil in H. exact H.
Defined.

(** X7.  The random method returns, position by position, either the
    lower-cased word or its upper-cased form, whatever the generator
    delivers; it takes one value per word from the shared twister, none
    from the generator behind [rng], and writes nothing. *)
Theorem random_case_words_and_draws (mt_seed : string → stream)
    (words : list string) (testing : bool) (w : world) :
  ∃ cased w', random_case mt_seed words testing w = (Ok cased, w') ∧
    Forall2 (λ word c, c = Str.lower word ∨ c = Str.upper (Str.lower word))
            words cased ∧
    draws w' = draws w ++ replicate (length words) SharedTwister ∧
    stderr w' = stderr w ∧ stdout w' = stdout w.
Proof. apply random_case_effects. Qed.

(** ** Passphrase generation, end to end *)

Lemma worddict_lookup_None (wordlist : list string)
    (d : gmap ascii (list string)) (c : ascii) :
  wordlist_to_worddict wordlist = Ok d →
  d !! c = None ↔ ∀ word, word ∈ wordlist → Str.get 0 word ≠ Some c.
Proof.
  intros Hd. rewrite (wordlist_to_worddict_lookup _ _ c Hd).
  destruct (filter _ wordlist) as [|x l] eqn:Hf.
  - split; [|done]. intros _ word Hin Hget.
    assert (Hx : word ∈ filter (λ word, Str.get 0 word = Some c) wordlist)
      by (by apply list_elem_of_filter).
    rewrite Hf in Hx. by apply elem_of_nil in Hx.
  - split; [done|]. intros Hall.
    assert (Hx : x ∈ filter (λ word, Str.get 0 word = Some c) wordlist)
      by (rewrite Hf; left).
    apply list_elem_of_filter in Hx as [Hget Hin]. by destruct (Hall x Hin).
Qed.

Lemma replicate_add3 {A} (a b c : nat) (x : A) :
  replicate (a + b + c) x = replicate a x ++ replicate b x ++ replicate c x.
Proof. by rewrite !replicate_add, <- app_assoc. Qed.

Section EndToEnd.

Variable rng : rng_class.
Variable mt_seed : string → stream.

Lemma choose_words_run (wordlist : list string) (numwords : nat) (w : world) :
  wordlist ≠ [] ∨ numwords = 0 →
  ∃ ws w', choose_words rng wordlist numwords w = (Ok ws, w') ∧
    length ws = numwords ∧ Forall (λ x, x ∈ wordlist) ws ∧
    draws w' = draws w ++ replicate numwords (instantiate rng) ∧
    stderr w' = stderr w.
Proof.
  intros [Hne| ->].
  - destruct (comprehension_choice (instantiate rng) wordlist (range numwords)
                w Hne) as (ws & w' & Hws & Hlen & Hall & Hd & He & _).
    unfold range in *. rewrite length_seq in *. by exists ws, w'.
  - exists [], w. cbn. rewrite app_nil_r. by repeat split.
Qed.

(** Plain mode: everything a successful call does. *)
Lemma plain_passwd_full (wordlist : list string) (numwords : nat)
    (acrostic : option string) (delimiter case : string)
    (num_digits num_symbols : nat) (w : world) :
  acrostic_set acrostic = None →
  wordlist ≠ [] ∨ numwords = 0 →
  case ∈ ["sentence"; "alternating"; "upper"; "lower"; "random";
          "first"; "capitalize"] →
  ∃ words cased digits symbols w1 w2 w',
    (length words = numwords ∧ Forall (λ x, x ∈ wordlist) words) ∧
    (set_case mt_seed words case false w1 = (Ok cased, w2) ∧
     length cased = numwords) ∧
    generate_xkcdpassword rng mt_seed wordlist numwords acrostic delimiter
                          case num_digits num_symbols w
      = (Ok (Str.join delimiter cased +:+ digits +:+ symbols), w') ∧
    (Str.len digits = num_digits ∧
     Forall (λ c, c ∈ Str.chars "0123456789") (Str.chars digits)) ∧
    (Str.len symbols = num_symbols ∧
     Forall (λ c, c ∈ Str.chars ALLOWED_SYMBOLS) (Str.chars symbols)) ∧
    draws w' = draws w ++ replicate numwords (instantiate rng)
                 ++ replicate ((if bool_decide (case = "random")
                                then numwords else 0)
                               + num_digits + num_symbols) SharedTwister ∧
    stderr w' = stderr w.
Proof.
  intros Hacr Hwl Hcase.
  destruct (choose_words_run wordlist numwords w Hwl)
    as (words & w1 & Hsel & Hlen & Hin & Hd1 & He1).
  destruct (set_case_known mt_seed words case w1 Hcase)
    as (cased & w2 & Hset & Hlen2 & Hd2 & He2).
  assert (Hsel' : select_words rng wordlist numwords acrostic ∅ w
                  = (Ok words, w1)).
  { unfold select_words. by rewrite Hacr. }
  destruct (gen_passwd_run rng mt_seed wordlist numwords acrostic ∅ delimiter
              case num_digits num_symbols w w1 w2 words cased Hsel' Hset)
    as (digits & symbols & w' & Hrun & Hdig & Hsym & Hd3 & He3).
  exists words, cased, digits, symbols, w1, w2, w'.
  split; [done|]. split; [split; [done|congruence]|].
  split; [unfold generate_xkcdpassword; by rewrite Hacr|].
  split; [done|]. split; [done|]. split; [|congruence].
  rewrite Hd3, Hd2, Hd1, Hlen, replicate_add3, <- !app_assoc. done.
Qed.

(** Acrostic mode: everything a successful call does. *)
Lemma acrostic_passwd_full (wordlist : list string) (numwords : nat)
    (acrostic : string) (delimiter case : string)
    (num_digits num_symbols : nat) (w : world) :
  acrostic ≠ "" →
  Forall (λ word, word ≠ "") wordlist →
  Forall (λ c, ∃ word, word ∈ wordlist ∧ Str.get 0 word = Some c)
         (Str.chars acrostic) →
  case ∈ ["sentence"; "alternating"; "upper"; "lower"; "random";
          "first"; "capitalize"] →
  ∃ words cased digits symbols w1 w2 w',
    Forall2 (λ c word, Str.get 0 word = Some c ∧ word ∈ wordlist)
            (Str.chars acrostic) words ∧
    (set_case mt_seed words case false w1 = (Ok cased, w2) ∧
     length cased = Str.len acrostic) ∧
    generate_xkcdpassword rng mt_seed wordlist numwords (Some acrostic)
                          delimiter case num_digits num_symbols w
      = (Ok (Str.join delimiter cased +:+ digits +:+ symbols), w') ∧
    (Str.len digits = num_digits ∧
     Forall (λ c, c ∈ Str.chars "0123456789") (Str.chars digits)) ∧
    (Str.len symbols = num_symbols ∧
     Forall (λ c, c ∈ Str.chars ALLOWED_SYMBOLS) (Str.chars symbols)) ∧
    stderr w' = stderr w.
Proof.
  intros Hne Hwl Hletters Hcase.
  assert (Hacr : acrostic_set (Some acrostic) = Some acrostic)
    by (by destruct acrostic).
  destruct (worddict_loop_total wordlist ∅ Hwl) as [d Hd].
  assert (Hall : Forall (λ c, is_Some (d !! c)) (Str.chars acrostic)).
  { eapply Forall_impl; [exact Hletters|]. intros c (word & Hin & Hget).
    destruct (d !! c) eqn:Hc; [by eexists|].
    pose proof (proj1 (worddict_lookup_None wordlist d c Hd) Hc) as Hno.
    by destruct (Hno word). }
  destruct (find_acrostic_loop_found rng wordlist d _ [] w Hd Hall)
    as (words & w1 & Hfind & Hf2 & He1 & _).
  destruct (set_case_known mt_seed words case w1 Hcase)
    as (cased & w2 & Hset & Hlen2 & _ & He2).
  assert (Hsel : select_words rng wordlist numwords (Some acrostic) d w
                 = (Ok words, w1)).
  { unfold select_words. by rewrite Hacr. }
  destruct (gen_passwd_run rng mt_seed wordlist numwords (Some acrostic) d
              delimiter case num_digits num_symbols w w1 w2 words cased
              Hsel Hset)
    as (digits & symbols & w' & Hrun & Hdig & Hsym & _ & He3).
  exists words, cased, digits, symbols, w1, w2, w'.
  split; [done|]. split.
  { split; [done|]. rewrite Hlen2, len_chars. symmetry.
    by eapply Forall2_length. }
  split.
  { unfold generate_xkcdpassword. rewrite Hacr, bind_run. unfold lift.
    change (wordlist_to_worddict wordlist) with (worddict_loop wordlist ∅).
    by rewrite Hd. }
  split; [done|]. split; [done|]. congruence.
Qed.

End EndToEnd.

(** X8.  In plain mode [generate_xkcdpassword] returns a passphrase whenever
    the word list is non-empty (or no word is asked for) and the case method
    is one of the seven: [numwords] words of the word list, cased, joined by
    the delimiter, then [num_digits] digits and [num_symbols] symbols; it
    writes nothing to the diagnostic stream. *)
Theorem plain_passwd_generated (rng : rng_class) (mt_seed : string → stream)
    (wordlist : list string) (numwords : nat) (delimiter case : string)
    (num_digits num_symbols : nat) (w : world) :
  wordlist ≠ [] ∨ numwords = 0 →
  case ∈ ["sentence"; "alternating"; "upper"; "lower"; "random";
          "first"; "capitalize"] →
  ∃ words cased digits symbols w1 w2 w',
    (length words = numwords ∧ Forall (λ x, x ∈ wordlist) words) ∧
    (set_case mt_seed words case false w1 = (Ok cased, w2) ∧
     length cased = numwords) ∧
    generate_xkcdpassword rng mt_seed wordlist numwords None delimiter
                          case num_digits num_symbols w
      = (Ok (Str.join delimiter cased +:+ digits +:+ symbols), w') ∧
    (Str.len digits = num_digits ∧
     Forall (λ c, c ∈ Str.chars "0123456789") (Str.chars digits)) ∧
    (Str.len symbols = num_symbols ∧
     Forall (λ c, c ∈ Str.chars ALLOWED_SYMBOLS) (Str.chars symbols)) ∧
    stderr w' = stderr w.
Proof.
  intros Hwl Hcase.
  destruct (plain_passwd_full rng mt_seed wordlist numwords None delimiter case
              num_digits num_symbols w eq_refl Hwl Hcase)
    as (words & cased & digits & symbols & w1 & w2 & w' & H1 & H2 & H3 & H4
        & H5 & _ & H7).
  by exists words, cased, digits, symbols, w1, w2, w'.
Qed.

Lemma plain_passwd_generated_witness :
  ∃ words cased digits symbols w1 w2 w',
    (length words = 2 ∧ Forall (λ x, x ∈ ["correct"; "horse"; "staple"]) words) ∧
    (set_case example_seed words "random" false w1 = (Ok cased, w2) ∧
     length cased = 2) ∧
    generate_xkcdpassword SystemRandom example_seed
      ["correct"; "horse"; "staple"] 2 None "-" "random" 1 2 example_world
      = (Ok (Str.join "-" cased +:+ digits +:+ symbols), w') ∧
    (Str.len digits = 1 ∧
     Forall (λ c, c ∈ Str.chars "0123456789") (Str.chars digits)) ∧
    (Str.len symbols = 2 ∧
     Forall (λ c, c ∈ Str.chars ALLOWED_SYMBOLS) (Str.chars symbols)) ∧
    stderr w' = stderr example_world.
Proof.
  apply (plain_passwd_generated SystemRandom example_seed
           ["correct"; "horse"; "staple"] 2 "-" "random" 1 2 example_world).
  - left. discriminate.
  - repeat (apply elem_of_cons; first [left; reflexivity | right]).
Defined.

(** X9.  Which source serves which draw of a plain-mode passphrase: one
    draw per word from the generator behind [rng], then from the shared
    twister one draw per word if the case method is "random", one per digit
    and one per symbol.  With no digits, no symbols and another case method
    every draw comes from the generator behind [rng]. *)
Theorem plain_passwd_draws_by_source (rng : rng_class)
    (mt_seed : string → stream) (wordlist : list string) (numwords : nat)
    (delimiter case : string) (num_digits num_symbols : nat) (w : world) :
  wordlist ≠ [] →
  case ∈ ["sentence"; "alternating"; "upper"; "lower"; "random";
          "first"; "capitalize"] →
  ∃ pw w',
    generate_xkcdpassword rng mt_seed wordlist numwords None delimiter
                          case num_digits num_symbols w = (Ok pw, w') ∧
    draws w' = draws w ++ replicate numwords (instantiate rng)
                 ++ replicate ((if bool_decide (case = "random")
                                then numwords else 0)
                               + num_digits + num_symbols) SharedTwister ∧
    (case ≠ "random" → num_digits = 0 → num_symbols = 0 →
     draws w' = draws w ++ replicate numwords (instantiate rng)).
Proof.
  intros Hwl Hcase.
  destruct (plain_passwd_full rng mt_seed wordlist numwords None delimiter case
              num_digits num_symbols w eq_refl (or_introl Hwl) Hcase)
    as (words & cased & digits & symbols & w1 & w2 & w' & _ & _ & Hrun & _
        & _ & Hd & _).
  eexists _, w'. split; [exact Hrun|]. split; [exact Hd|].
  intros Hr -> ->. rewrite Hd, bool_decide_eq_false_2 by done.
  cbn. by rewrite app_nil_r.
Qed.

Lemma plain_passwd_draws_by_source_witness :
  ∃ pw w',
    generate_xkcdpassword SystemRandom example_seed ["correct"; "horse"] 3
                          None "." "upper" 0 0 example_world = (Ok pw, w') ∧
    draws w' = draws example_world ++ replicate 3 (instantiate SystemRandom)
                 ++ replicate ((if bool_decide ("upper" = "random")
                                then 3 else 0) + 0 + 0) SharedTwister ∧
    ("upper" ≠ "random" → 0 = 0 → 0 = 0 →
     draws w' = draws example_world
                ++ replicate 3 (instantiate SystemRandom)).
Proof.
  apply (plain_passwd_draws_by_source SystemRandom example_seed
           ["correct"; "horse"] 3 "." "upper" 0 0 example_world).
  - discriminate.
  - repeat (apply elem_of_cons; first [left; reflexivity | right]).
Defined.

(** X10.  In acrostic mode, over a word list without empty entries in which
    every character of the acrostic begins some word, [generate_xkcdpassword]
    builds the index and returns a passphrase of one word per character, in
    order, the i-th word beginning with the i-th character before casing;
    [numwords] plays no part. *)
Theorem acrostic_passwd_generated (rng : rng_class) (mt_seed : string → stream)
    (wordlist : list string) (numwords : nat) (acrostic : string)
    (delimiter case : string) (num_digits num_symbols : nat) (w : world) :
  acrostic ≠ "" →
  Forall (λ word, word ≠ "") wordlist →
  Forall (λ c, ∃ word, word ∈ wordlist ∧ Str.get 0 word = Some c)
         (Str.chars acrostic) →
  case ∈ ["sentence"; "alternating"; "upper"; "lower"; "random";
          "first"; "capitalize"] →
  ∃ words cased digits symbols w1 w2 w',
    Forall2 (λ c word, Str.get 0 word = Some c ∧ word ∈ wordlist)
            (Str.chars acrostic) words ∧
    (set_case mt_seed words case false w1 = (Ok cased, w2) ∧
     length cased = Str.len acrostic) ∧
    generate_xkcdpassword rng mt_seed wordlist numwords (Some acrostic)
                          delimiter case num_digits num_symbols w
      = (Ok (Str.join delimiter cased +:+ digits +:+ symbols), w') ∧
    (Str.len digits = num_digits ∧
     Forall (λ c, c ∈ Str.chars "0123456789") (Str.chars digits)) ∧
    (Str.len symbols = num_symbols ∧
     Forall (λ c, c ∈ Str.chars ALLOWED_SYMBOLS) (Str.chars symbols)) ∧
    stderr w' = stderr w.
Proof. apply acrostic_passwd_full. Qed.

Lemma acrostic_passwd_generated_witness :
  ∃ words cased digits symbols w1 w2 w',
    Forall2 (λ c word, Str.get 0 word = Some c
                       ∧ word ∈ ["apple"; "ant"; "bee"])
            (Str.chars "ab") words ∧
    (set_case example_seed words "lower" false w1 = (Ok cased, w2) ∧
     length cased = Str.len "ab") ∧
    generate_xkcdpassword SystemRandom example_seed ["apple"; "ant"; "bee"] 7
                          (Some "ab") "." "lower" 1 1 example_world
      = (Ok (Str.join "." cased +:+ digits +:+ symbols), w') ∧
    (Str.len digits = 1 ∧
     Forall (λ c, c ∈ Str.chars "0123456789") (Str.chars digits)) ∧
    (Str.len symbols = 1 ∧
     Forall (λ c, c ∈ Str.chars ALLOWED_SYMBOLS) (Str.chars symbols)) ∧
    stderr w' = stderr example_world.
Proof.
  apply (acrostic_passwd_generated SystemRandom example_seed
           ["apple"; "ant"; "bee"] 7 "ab" "." "lower" 1 1 example_world).
  - discriminate.
  - repeat constructor; discriminate.
  - constructor; [|constructor; [|constructor]].
    + exists "apple". split; [apply elem_of_cons; left; reflexivity|reflexivity].
    + exists "bee". split; [|reflexivity].
      repeat (apply elem_of_cons; first [left; reflexivity | right]).
  - repeat (apply elem_of_cons; first [left; reflexivity | right]).
Defined.

(** X11.  In acrostic mode, when some character of the acrostic begins no
    word of the list: over a word list without empty entries,
    [generate_xkcdpassword] returns no passphrase, names such a character on
    the diagnostic stream and exits with status 1; over a word list with an
    empty entry it raises IndexError while it builds the dictionary, before
    it writes anything or takes any value. *)
Theorem acrostic_passwd_missing_letter (rng : rng_class)
    (mt_seed : string → stream) (wordlist : list string) (numwords : nat)
    (acrostic : string) (delimiter case : string)
    (num_digits num_symbols : nat) (w : world) :
  Exists (λ c, ∀ word, word ∈ wordlist → Str.get 0 word ≠ Some c)
         (Str.chars acrostic) →
  (Forall (λ word, word ≠ "") wordlist →
   ∃ c w',
     c ∈ Str.chars acrostic ∧
     (∀ word, word ∈ wordlist → Str.get 0 word ≠ Some c) ∧
     generate_xkcdpassword rng mt_seed wordlist numwords (Some acrostic)
                           delimiter case num_digits num_symbols w
       = (Raise (SystemExit 1), w') ∧
     stderr w' = stderr w ++ ["No words found starting with "
                              +:+ String c "" +:+ String "010" ""] ∧
     stdout w' = stdout w) ∧
  ("" ∈ wordlist →
   generate_xkcdpassword rng mt_seed wordlist numwords (Some acrostic)
                         delimiter case num_digits num_symbols w
     = (Raise IndexError, w)).
Proof.
  intros Hex.
  assert (Hacr : acrostic_set (Some acrostic) = Some acrostic).
  { destruct acrostic; [by apply Exists_nil in Hex|done]. }
  split.
  - intros Hwl.
    destruct (worddict_loop_total wordlist ∅ Hwl) as [d Hd].
    assert (Hex' : Exists (λ c, d !! c = None) (Str.chars acrostic)).
    { eapply Exists_impl; [exact Hex|]. intros c Hc.
      by apply (worddict_lookup_None wordlist d c Hd). }
    destruct (find_acrostic_loop_missing rng wordlist d _ [] w Hd Hex')
      as (c & w' & Hin & Hnone & Hrun & He).
    assert (Hgen : generate_xkcdpassword rng mt_seed wordlist numwords
                     (Some acrostic) delimiter case num_digits num_symbols w
                   = (Raise (SystemExit 1), w')).
    { unfold generate_xkcdpassword. rewrite Hacr, bind_run. unfold lift.
      change (wordlist_to_worddict wordlist) with (worddict_loop wordlist ∅).
      rewrite Hd. unfold gen_passwd, select_words. rewrite Hacr.
      by rewrite (bind_raise _ _ _ _ _ Hrun). }
    exists c, w'. split; [done|].
    split; [by apply (worddict_lookup_None wordlist d c Hd)|].
    split; [done|]. split; [done|].
    pose proof (keeps_generate_xkcdpassword rng mt_seed wordlist numwords
                  (Some acrostic) delimiter case num_digits num_symbols w)
      as Hout.
    by rewrite Hgen in Hout.
  - intros Hempty.
    unfold generate_xkcdpassword. rewrite Hacr, bind_run. unfold lift.
    change (wordlist_to_worddict wordlist) with (worddict_loop wordlist ∅).
    by rewrite (worddict_loop_empty_word wordlist ∅ Hempty).
Qed.

Lemma acrostic_passwd_missing_letter_witness :
  (∃ c w',
     c ∈ Str.chars "cab" ∧
     (∀ word, word ∈ ["apple"; "ant"; "bee"] → Str.get 0 word ≠ Some c) ∧
     generate_xkcdpassword SystemRandom example_seed ["apple"; "ant"; "bee"] 3
                           (Some "cab") "." "sentence" 1 1 example_world
       = (Raise (SystemExit 1), w') ∧
     stderr w' = stderr example_world
                 ++ ["No words found starting with "
                     +:+ String c "" +:+ String "010" ""] ∧
     stdout w' = stdout example_world) ∧
  generate_xkcdpassword SystemRandom example_seed [""; "apple"] 3
                        (Some "z") "." "sentence" 1 1 example_world
    = (Raise IndexError, example_world).
Proof.
  split.
  - apply (acrostic_passwd_missing_letter SystemRandom example_seed
             ["apple"; "ant"; "bee"] 3 "cab" "." "sentence" 1 1
             example_world).
    + apply Exists_cons_hd. intros word Hin.
      repeat (apply elem_of_cons in Hin as [->|Hin]; [discriminate|]).
      apply elem_of_nil in Hin. destruct Hin.
    + repeat constructor; discriminate.
  - apply (acrostic_passwd_missing_letter SystemRandom example_seed
             [""; "apple"] 3 "z" "." "sentence" 1 1 example_world).
    + apply Exists_cons_hd. intros word Hin.
      repeat (apply elem_of_cons in Hin as [->|Hin]; [discriminate|]).
      apply elem_of_nil in Hin. destruct Hin.
    + apply elem_of_cons. by left.
Defined.

(** X12.  With an empty word list and at least one word asked for, plain
    mode raises IndexError: no passphrase, no diagnostic, no exit status, and
    no value taken from any source. *)
Theorem plain_passwd_empty_wordlist (rng : rng_class)
    (mt_seed : string → stream) (numwords : nat) (delimiter case : string)
    (num_digits num_symbols : nat) (w : world) :
  numwords ≠ 0 →
  generate_xkcdpassword rng mt_seed [] numwords None delimiter case
                        num_digits num_symbols w = (Raise IndexError, w).
Proof. intros Hn. destruct numwords; [done|]. reflexivity. Qed.

Lemma plain_passwd_empty_wordlist_witness :
  generate_xkcdpassword SystemRandom example_seed [] 3 None "." "sentence" 1 1
                        example_world = (Raise IndexError, example_world).
Proof.
  apply (plain_passwd_empty_wordlist SystemRandom example_seed 3 "." "sentence"
           1 1 example_world).
  lia.
Defined.

(** ** Start-up choice of the generator *)

(** X13.  The weak generator is chosen only when [random.SystemRandom] is
    missing and the opt-in is given, and then both warnings have been
    written; when it is missing without the opt-in, start-up fails with
    AttributeError after the first warning; when it exists, it is chosen and
    nothing is written. *)
Theorem select_rng_weak_needs_opt_in (has_SystemRandom weak_allowed : bool)
    (w : world) :
  (∀ w', select_rng has_SystemRandom weak_allowed w = (Ok Random, w') →
     has_SystemRandom = false ∧ weak_allowed = true ∧
     ∃ warning, stderr w' = stderr w ++ [warning;
                  "Continuing with less-secure generator." +:+ String "010" ""]) ∧
  (has_SystemRandom = false → weak_allowed = false →
   ∃ w' warning, select_rng has_SystemRandom weak_allowed w
                   = (Raise AttributeError, w') ∧
     stderr w' = stderr w ++ [warning]) ∧
  (has_SystemRandom = true →
   select_rng has_SystemRandom weak_allowed w = (Ok SystemRandom, w)).
Proof.
  split; [|split].
  - intros w' H. destruct has_SystemRandom; [discriminate H|].
    destruct weak_allowed; [|discriminate H].
    split; [done|]. split; [done|].
    assert (Hrun : ∃ warning,
              select_rng false true w
              = (Ok Random,
                 World (entropy w) (draws w)
                       ((stderr w ++ [warning])
                        ++ ["Continuing with less-secure generator."
                            +:+ String "010" ""])
                       (stdout w))) by (eexists; reflexivity).
    destruct Hrun as [warning Hrun]. rewrite Hrun in H. injection H as <-.
    exists warning. cbn. by rewrite <- app_assoc.
  - intros -> ->. eexists _, _. split; reflexivity.
  - by intros ->.
Qed.

Lemma select_rng_weak_needs_opt_in_witness :
  (∀ w', select_rng false true example_world = (Ok Random, w') →
     false = false ∧ true = true ∧
     ∃ warning, stderr w' = stderr example_world ++ [warning;
                  "Continuing with less-secure generator." +:+ String "010" ""]) ∧
  (∃ w' warning, select_rng false false example_world
                   = (Raise AttributeError, w') ∧
     stderr w' = stderr example_world ++ [warning]) ∧
  select_rng true false example_world = (Ok SystemRandom, example_world).
Proof.
  split; [|split].
  - apply (select_rng_weak_needs_opt_in false true example_world).
  - apply (select_rng_weak_needs_opt_in false false example_world);
      reflexivity.
  - apply (select_rng_weak_needs_opt_in true false example_world).
    reflexivity.
Defined.

(** ** Entropy report *)

Lemma foldl_add_sum {A} (f : A → nat) (xs : list A) (n : nat) :
  foldl (λ acc x, acc + f x) n xs = n + sum_list (f <$> xs).
Proof.
  revert n. induction xs as [|x xs IH]; intros n; cbn; [lia|].
  rewrite IH. lia.
Qed.

(** X14.  In acrostic mode the pool size of the report is the sum, over the
    characters of the acrostic taken one by one, of the number of words that
    begin with the character: a character that occurs twice counts its words
    twice, and a character that begins no word counts for nothing.  The word
    count of the report is the length of the acrostic, not [numwords]. *)
Theorem candidate_pool_acrostic (wordlist : list string) (acrostic : string)
    (numwords : nat) (w : world) :
  acrostic ≠ "" →
  Forall (λ word, word ≠ "") wordlist →
  candidate_pool wordlist (Options (Some acrostic) numwords) w
    = (Ok (sum_list ((λ c, length (filter (λ word, Str.get 0 word = Some c)
                                          wordlist))
                     <$> Str.chars acrostic),
           Str.len acrostic), w).
Proof.
  intros Hne Hwl. unfold candidate_pool. cbn [opt_acrostic].
  assert (Hacr : acrostic_set (Some acrostic) = Some acrostic)
    by (by destruct acrostic).
  rewrite Hacr, bind_run. unfold lift.
  destruct (worddict_loop_total wordlist ∅ Hwl) as [d Hd].
  change (wordlist_to_worddict wordlist) with (worddict_loop wordlist ∅).
  rewrite Hd, bind_run, for_in_pure.
  rewrite (foldl_add_sum (λ c, length (default [] (d !! c)))).
  unfold mret, M_ret. cbn [Nat.add]. do 4 f_equal.
  apply list_fmap_ext. intros i c _.
  rewrite (wordlist_to_worddict_lookup wordlist d c Hd).
  by destruct (filter _ wordlist).
Qed.

Lemma candidate_pool_acrostic_witness :
  candidate_pool ["apple"; "ant"; "bee"] (Options (Some "aab") 5) example_world
    = (Ok (sum_list ((λ c, length (filter (λ word, Str.get 0 word = Some c)
                                          ["apple"; "ant"; "bee"]))
                     <$> Str.chars "aab"),
           Str.len "aab"), example_world).
Proof.
  apply (candidate_pool_acrostic ["apple"; "ant"; "bee"] "aab" 5 example_world).
  - discriminate.
  - repeat constructor; discriminate.
Defined.

(** X15.  With a pool of size zero, in either mode, [verbose_reports]
    raises the logarithm's ValueError before it prints anything; it writes
    no diagnostic and does not exit. *)
Theorem verbose_reports_zero_pool (entropy_fits : nat → nat → bool)
    (wordlist : list string) (opts : options) (w : world) (numwords : nat) :
  (candidate_pool wordlist opts w).1 = Ok (0, numwords) →
  verbose_reports entropy_fits wordlist opts w = (Raise ValueError, w).
Proof.
  intros Hpool. pose proof (candidate_pool_world wordlist opts w) as Hw.
  unfold verbose_reports. rewrite bind_run.
  destruct (candidate_pool wordlist opts w) as [r w1]. cbn in Hpool, Hw.
  by subst r w1.
Qed.

Lemma verbose_reports_zero_pool_witness :
  verbose_reports example_float_range ["apple"; "ant"; "bee"]
                  (Options (Some "xyz") 3) example_world
    = (Raise ValueError, example_world).
Proof.
  apply (verbose_reports_zero_pool example_float_range ["apple"; "ant"; "bee"]
           (Options (Some "xyz") 3) example_world 3).
  vm_compute. reflexivity.
Defined.


(** * Properties of the command-line program *)

(** ** Locating the word file *)

Lemma locate_wordfile_first (os : os_env) (wordfile : option string)
    (before after : list string) (p : string) :
  common_word_files os wordfile = before ++ p :: after →
  Forall (λ q, isfile os q = false) before →
  isfile os p = true →
  locate_wordfile os wordfile = Some p.
Proof.
  intros Hc Hb Hp. unfold locate_wordfile. rewrite Hc. clear Hc.
  induction Hb as [|q before Hq _ IH]; cbn.
  - by rewrite Hp.
  - by rewrite Hq.
Qed.

(** X16.  [locate_wordfile] returns only a candidate path that is an
    existing file, and it returns none exactly when no candidate is one: the
    name in the bundled directory, the name as a path, the bundled default,
    and the four system dictionaries. *)
Theorem locate_wordfile_sound (os : os_env) (wordfile : option string) :
  (∀ p, locate_wordfile os wordfile = Some p →
     isfile os p = true ∧ p ∈ common_word_files os wordfile) ∧
  (locate_wordfile os wordfile = None ↔
     ∀ p, p ∈ common_word_files os wordfile → isfile os p = false).
Proof.
  unfold locate_wordfile. split.
  - intros p Hp. apply find_some in Hp as [Hin Hf].
    split; [done|]. by apply list_elem_of_In.
  - split.
    + intros Hn p Hin. apply list_elem_of_In in Hin.
      by apply (find_none _ _ Hn).
    + intros Hall. destruct (find _ _) as [p|] eqn:Hp; [|done].
      apply find_some in Hp as [Hin Hf]. apply list_elem_of_In in Hin.
      rewrite (Hall p Hin) in Hf. discriminate.
Qed.

(** X17.  A word file name that exists neither in the bundled directory nor
    as a path is not an error for [locate_wordfile]: when the bundled
    default list exists, it is returned in its place. *)
Theorem locate_wordfile_falls_back (os : os_env) (wordfile : string) :
  isfile os (Path.join (static_dir os) wordfile) = false →
  isfile os (expanduser os wordfile) = false →
  isfile os (Path.join (static_dir os) DEFAULT_WORDFILE) = true →
  locate_wordfile os (Some wordfile)
    = Some (Path.join (static_dir os) DEFAULT_WORDFILE).
Proof.
  intros H1 H2 H3.
  apply (locate_wordfile_first os (Some wordfile)
           [Path.join (static_dir os) wordfile; expanduser os wordfile]
           ["/usr/share/cracklib/cracklib-small";
            "/usr/share/dict/cracklib-small";
            "/usr/dict/words"; "/usr/share/dict/words"]);
    [done| |done].
  by repeat constructor.
Qed.

Lemma locate_wordfile_falls_back_witness :
  locate_wordfile example_os (Some "no-such-list")
    = Some (Path.join (static_dir example_os) DEFAULT_WORDFILE).
Proof.
  apply (locate_wordfile_falls_back example_os "no-such-list");
    vm_compute; reflexivity.
Defined.

(** X18.  An absolute path that is an existing file is returned as it is:
    joined to the bundled directory it stays itself, and that is the first
    candidate. *)
Theorem locate_wordfile_absolute (os : os_env) (wordfile : string) :
  Path.isabs wordfile = true →
  isfile os wordfile = true →
  locate_wordfile os (Some wordfile) = Some wordfile.
Proof.
  intros Habs Hf.
  apply (locate_wordfile_first os (Some wordfile) []
           [expanduser os wordfile;
            Path.join (static_dir os) DEFAULT_WORDFILE;
            "/usr/share/cracklib/cracklib-small";
            "/usr/share/dict/cracklib-small";
            "/usr/dict/words"; "/usr/share/dict/words"]);
    [|done|done].
  unfold common_word_files, Path.join. by rewrite Habs.
Qed.

Lemma locate_wordfile_absolute_witness :
  locate_wordfile example_os (Some "/home/user/words.txt")
    = Some "/home/user/words.txt".
Proof.
  apply (locate_wordfile_absolute example_os "/home/user/words.txt");
    vm_compute; reflexivity.
Defined.

(** ** The session monad *)

Lemma io_bind_run {A B} (m : IO A) (f : A → IO B) (s : session) :
  (m ≫= f) s = match m s with
               | (Returns a, s') => f a s'
               | (Raises e, s') => (Raises e, s')
               | (Unfinished, s') => (Unfinished, s')
               end.
Proof. reflexivity. Qed.

Lemma io_bind_returns {A B} (m : IO A) (f : A → IO B) (s s' : session) (a : A) :
  m s = (Returns a, s') → (m ≫= f) s = f a s'.
Proof. intros H. by rewrite io_bind_run, H. Qed.

Lemma io_bind_raises {A B} (m : IO A) (f : A → IO B) (s s' : session)
    (e : io_exn) :
  m s = (Raises e, s') → (m ≫= f) s = (Raises e, s').
Proof. intros H. by rewrite io_bind_run, H. Qed.

Lemma io_ret_bind {A B} (a : A) (f : A → IO B) (s : session) :
  (mret a ≫= f) s = f a s.
Proof. reflexivity. Qed.

Lemma run_ok {A} (m : M A) (s : session) (a : A) (w' : world) :
  m (sworld s) = (Ok a, w') →
  run m s = (Returns a, Session w' (pending s) (screen s)).
Proof. intros H. unfold run. by rewrite H. Qed.

Lemma run_raise {A} (m : M A) (s : session) (e : exn) (w' : world) :
  m (sworld s) = (Raise e, w') →
  run m s = (Raises (Exn e), Session w' (pending s) (screen s)).
Proof. intros H. unfold run. by rewrite H. Qed.

(** ** Option validation *)

(** X19.  [validate_options] returns only when a word file was located, an
    existing file, so that [generate_wordlist] then opens it and cannot meet
    [open(None)]; when none is located it writes its message and exits with
    status 1.  A maximum below the minimum is only warned about. *)
Theorem validate_options_guards_open (os : os_env) (o : cli_options)
    (w : world) :
  (∀ w', validate_options os o w = (Ok (), w') →
     ∃ path, locate_wordfile os (cli_wordfile o) = Some path ∧
       isfile os path = true ∧
       ∀ s, generate_wordlist_os os (cli_wordfile o) (cli_min_length o)
              (cli_max_length o) (cli_valid_chars o) s
            = (Returns (generate_wordlist (file_lines os path)
                          (cli_min_length o) (cli_max_length o)
                          (cli_valid_chars o)), s)) ∧
  (locate_wordfile os (cli_wordfile o) = None →
   ∃ w', validate_options os o w = (Raise (SystemExit 1), w') ∧
     last (stderr w') = Some ("Could not find a word file, or word file does "
                              +:+ "not exist." +:+ String "010" "")) ∧
  (path_found (locate_wordfile os (cli_wordfile o)) = true →
   ∃ w', validate_options os o w = (Ok (), w') ∧
     stderr w' = stderr w
                 ++ (if decide (cli_max_length o < cli_min_length o)
                     then ["Warning: maximum word length less than minimum. "
                           +:+ "Setting maximum equal to minimum."
                           +:+ String "010" ""]
                     else [])).
Proof.
  split; [|split].
  - intros w' H. unfold validate_options in H.
    destruct (locate_wordfile os (cli_wordfile o)) as [path|] eqn:Hloc.
    + exists path. split; [done|].
      split; [by apply find_some in Hloc as [_ Hfile]|].
      intros s. unfold generate_wordlist_os. by rewrite Hloc.
    + exfalso. cbn [path_found negb] in H. rewrite bind_run in H.
      case_decide; cbn in H; discriminate H.
  - intros Hloc. unfold validate_options. rewrite Hloc. cbn [path_found negb].
    rewrite bind_run.
    case_decide; eexists; (split; [reflexivity|]); cbn; by rewrite last_snoc.
  - intros Hf. unfold validate_options. rewrite Hf. cbn [negb].
    rewrite bind_run.
    case_decide; eexists; (split; [reflexivity|]); cbn; [done|].
    by rewrite app_nil_r.
Qed.

Lemma validate_options_guards_open_witness :
  (∃ w', validate_options example_os
           (CliOptions (Some "~/missing") 5 3 2 None false Dot false 2 "."
                       (String "010" "") "sentence" 1 1) example_world
         = (Ok (), w') ∧
     stderr w' = stderr example_world
                 ++ (if decide (3 < 5)
                     then ["Warning: maximum word length less than minimum. "
                           +:+ "Setting maximum equal to minimum."
                           +:+ String "010" ""]
                     else [])) ∧
  (∃ w', validate_options
           (OsEnv "/opt/xkcdpass/static" (λ p, p) (λ _, false) (λ _, []))
           example_options example_world = (Raise (SystemExit 1), w') ∧
     last (stderr w') = Some ("Could not find a word file, or word file does "
                              +:+ "not exist." +:+ String "010" "")).
Proof.
  split.
  - apply (validate_options_guards_open example_os
             (CliOptions (Some "~/missing") 5 3 2 None false Dot false 2 "."
                         (String "010" "") "sentence" 1 1) example_world).
    vm_compute. reflexivity.
  - apply (validate_options_guards_open
             (OsEnv "/opt/xkcdpass/static" (λ p, p) (λ _, false) (λ _, []))
             example_options example_world).
    vm_compute. reflexivity.
Defined.

(** ** The accept loop *)

Lemma try_input_line {A} (prompt : string) (validate : string → IO A)
    (s : session) (answer : string) (rest : list input) :
  pending s = Line answer :: rest →
  try_input prompt validate s
    = validate answer (Session (sworld s) rest (screen s ++ [prompt])).
Proof.
  intros Hp. unfold try_input. rewrite io_bind_run.
  unfold io_try_except, raw_input. by rewrite Hp.
Qed.

Lemma try_input_cancel {A} (prompt : string) (validate : string → IO A)
    (s : session) :
  match pending s with Line _ :: _ => False | _ => True end →
  try_input prompt validate s
    = (Raises (Exn (SystemExit 0)),
       Session (sworld s) (tail (pending s))
               (screen s ++ [prompt; String "010" ""])).
Proof.
  intros Hp. unfold try_input. rewrite io_bind_run.
  unfold io_try_except, raw_input.
  destruct (pending s) as [|[answer|] rest]; [|done|];
    unfold mbind, IO_bind, write, io_raise; cbn; by rewrite <- app_assoc.
Qed.

(** One round of the loop, once the passphrase of the round is generated. *)
Lemma accept_loop_round (rounds : nat) (gen : M string) (s : session)
    (passwd : string) (w1 : world) :
  gen (sworld s) = (Ok passwd, w1) →
  accept_loop (S rounds) gen s
    = match pending s with
      | Line answer :: rest =>
          if accepted_validator answer then
            (Returns passwd,
             Session w1 rest
               (screen s ++ ["Generated: " +:+ passwd +:+ String "010" "";
                             "Accept? [yN] ";
                             "accepted True" +:+ String "010" ""]))
          else
            accept_loop rounds gen
              (Session w1 rest
                 (screen s ++ ["Generated: " +:+ passwd +:+ String "010" "";
                               "Accept? [yN] ";
                               "accepted False" +:+ String "010" ""]))
      | other =>
          (Raises (Exn (SystemExit 0)),
           Session w1 (tail other)
             (screen s ++ ["Generated: " +:+ passwd +:+ String "010" "";
                           "Accept? [yN] "; String "010" ""]))
      end.
Proof.
  intros Hgen. cbn [accept_loop].
  rewrite (io_bind_returns _ _ _ _ _ (run_ok gen s passwd w1 Hgen)).
  rewrite io_bind_run. cbn [write]. cbn [sworld pending screen].
  rewrite io_bind_run.
  destruct (pending s) as [|[answer|] rest] eqn:Hp.
  - rewrite try_input_cancel by done. cbn. by rewrite <- app_assoc.
  - rewrite (try_input_line _ _ _ answer rest) by done.
    cbn [mret IO_ret sworld pending screen]. rewrite io_bind_run.
    cbn [write sworld pending screen].
    destruct (accepted_validator answer); cbn; by rewrite <- !app_assoc.
  - rewrite try_input_cancel by done. cbn. by rewrite <- app_assoc.
Qed.

Lemma accept_loop_gen_raises (rounds : nat) (gen : M string) (s : session)
    (e : exn) (w1 : world) :
  gen (sworld s) = (Raise e, w1) →
  accept_loop (S rounds) gen s
    = (Raises (Exn e), Session w1 (pending s) (screen s)).
Proof.
  intros Hgen. cbn [accept_loop].
  by rewrite (io_bind_raises _ _ _ _ _ (run_raise gen s e w1 Hgen)).
Qed.

(** With a generator that always returns: the user rejects some passphrases
    and accepts the next.  The loop calls the generator once per answer, and
    shows each passphrase with the prompt and the verdict. *)
Lemma accept_loop_accepts (gen : M string) (rejected : list string)
    (yes : string) (rest : list input) (rounds : nat) (s : session) :
  (∀ w, ∃ pw w', gen w = (Ok pw, w')) →
  pending s = (Line <$> rejected) ++ Line yes :: rest →
  Forall (λ answer, accepted_validator answer = false) rejected →
  accepted_validator yes = true →
  length rejected < rounds →
  ∃ pws passwd w',
    successive gen (S (length rejected)) (sworld s) = (pws ++ [passwd], w') ∧
    length pws = length rejected ∧
    accept_loop rounds gen s
      = (Returns passwd,
         Session w' rest
           (screen s
            ++ concat ((λ pw, ["Generated: " +:+ pw +:+ String "010" "";
                               "Accept? [yN] ";
                               "accepted False" +:+ String "010" ""])
                       <$> pws)
            ++ ["Generated: " +:+ passwd +:+ String "010" "";
                "Accept? [yN] "; "accepted True" +:+ String "010" ""])).
Proof.
  intros Hgen Hp Hrej Hyes Hr. revert rounds s Hp Hr.
  induction Hrej as [|answer rejected Hno _ IH]; intros rounds s Hp Hr.
  - destruct rounds as [|rounds]; [cbn in Hr; lia|].
    destruct (Hgen (sworld s)) as (pw & w1 & Hg).
    change (pending s = Line yes :: rest) in Hp.
    rewrite (accept_loop_round rounds gen s pw w1 Hg), Hp, Hyes.
    exists [], pw, w1. split; [|done].
    by apply (successive_S gen 0 (sworld s) w1 w1 pw []).
  - destruct rounds as [|rounds]; [cbn in Hr; lia|].
    destruct (Hgen (sworld s)) as (pw & w1 & Hg).
    change (pending s = Line answer
                          :: ((Line <$> rejected) ++ Line yes :: rest)) in Hp.
    rewrite (accept_loop_round rounds gen s pw w1 Hg), Hp, Hno.
    match goal with
    | |- context [accept_loop rounds gen ?s0] =>
        destruct (IH rounds s0) as (pws & passwd & w' & Hsucc & Hlen & Hrun);
        [reflexivity|cbn in Hr; lia|]
    end.
    rewrite Hrun. exists (pw :: pws), passwd, w'. cbn [sworld screen] in *.
    split; [|split].
    + by apply (successive_S gen _ (sworld s) w1 w' pw (pws ++ [passwd])).
    + cbn. by rewrite Hlen.
    + cbn [fmap list_fmap concat]. by rewrite <- !app_assoc.
Qed.

(** With a generator that always returns: the user rejects some passphrases
    and then the input ends or is interrupted. *)
Lemma accept_loop_cancelled (gen : M string) (rejected : list string)
    (rest : list input) (rounds : nat) (s : session) :
  (∀ w, ∃ pw w', gen w = (Ok pw, w')) →
  pending s = (Line <$> rejected) ++ rest →
  Forall (λ answer, accepted_validator answer = false) rejected →
  match rest with Line _ :: _ => False | _ => True end →
  length rejected < rounds →
  ∃ pws passwd w',
    successive gen (S (length rejected)) (sworld s) = (pws ++ [passwd], w') ∧
    length pws = length rejected ∧
    accept_loop rounds gen s
      = (Raises (Exn (SystemExit 0)),
         Session w' (tail rest)
           (screen s
            ++ concat ((λ pw, ["Generated: " +:+ pw +:+ String "010" "";
                               "Accept? [yN] ";
                               "accepted False" +:+ String "010" ""])
                       <$> pws)
            ++ ["Generated: " +:+ passwd +:+ String "010" "";
                "Accept? [yN] "; String "010" ""])).
Proof.
  intros Hgen Hp Hrej Hrest Hr. revert rounds s Hp Hr.
  induction Hrej as [|answer rejected Hno _ IH]; intros rounds s Hp Hr.
  - destruct rounds as [|rounds]; [cbn in Hr; lia|].
    destruct (Hgen (sworld s)) as (pw & w1 & Hg).
    change (pending s = rest) in Hp.
    rewrite (accept_loop_round rounds gen s pw w1 Hg), Hp.
    exists [], pw, w1.
    split; [by apply (successive_S gen 0 (sworld s) w1 w1 pw [])|].
    split; [done|]. by destruct rest as [|[a|] rest].
  - destruct rounds as [|rounds]; [cbn in Hr; lia|].
    destruct (Hgen (sworld s)) as (pw & w1 & Hg).
    change (pending s = Line answer :: ((Line <$> rejected) ++ rest)) in Hp.
    rewrite (accept_loop_round rounds gen s pw w1 Hg), Hp, Hno.
    match goal with
    | |- context [accept_loop rounds gen ?s0] =>
        destruct (IH rounds s0) as (pws & passwd & w' & Hsucc & Hlen & Hrun);
        [reflexivity|cbn in Hr; lia|]
    end.
    rewrite Hrun. exists (pw :: pws), passwd, w'. cbn [sworld screen] in *.
    split; [|split].
    + by apply (successive_S gen _ (sworld s) w1 w' pw (pws ++ [passwd])).
    + cbn. by rewrite Hlen.
    + cbn [fmap list_fmap concat]. by rewrite <- !app_assoc.
Qed.

(** The loop reads one answer per round: with more rounds than answers
    pending it ends, and it never puts answers back. *)
Lemma accept_loop_ends (gen : M string) (rounds : nat) (s : session) :
  length (pending s) < rounds →
  (accept_loop rounds gen s).1 ≠ Unfinished ∧
  length (pending (accept_loop rounds gen s).2) ≤ length (pending s).
Proof.
  revert s. induction rounds as [|rounds IH]; intros s Hr; [lia|].
  destruct (gen (sworld s)) as [[pw|e] w1] eqn:Hg.
  - rewrite (accept_loop_round rounds gen s pw w1 Hg).
    destruct (pending s) as [|[answer|] rest] eqn:Hp; cbn [length] in *.
    + cbn. split; [done|lia].
    + destruct (accepted_validator answer).
      * cbn. split; [done|lia].
      * edestruct (IH (Session w1 rest
                   (screen s ++ ["Generated: " +:+ pw +:+ String "010" "";
                                 "Accept? [yN] ";
                                 "accepted False" +:+ String "010" ""])))
          as [H1 H2]; [cbn; lia|].
        split; [done|]. cbn in H2. lia.
    + cbn. split; [done|lia].
  - rewrite (accept_loop_gen_raises rounds gen s e w1 Hg). cbn.
    split; [done|lia].
Qed.

Lemma run_bind {A B} (m : M A) (f : A → M B) (s : session) :
  run (m ≫= f) s = (run m ≫= λ a, run (f a)) s.
Proof.
  rewrite io_bind_run. unfold run at 1 2. rewrite bind_run.
  destruct (m (sworld s)) as [[a|e] w']; [|done].
  unfold run. cbn [sworld pending screen]. by destruct (f a w') as [[b|e] w''].
Qed.

Section InteractiveFacts.

Variable rng : rng_class.
Variable mt_seed : string → stream.
Variable int_of : string → option Z.

(** Without [interactive] the session version is the pipeline's. *)
Lemma generate_io_noninteractive (rounds : nat) (wordlist : list string)
    (numwords : nat) (acrostic : option string) (delimiter case : string)
    (num_digits num_symbols : nat) (s : session) :
  generate_xkcdpassword_io rng mt_seed rounds wordlist numwords false acrostic
                           delimiter case num_digits num_symbols s
  = run (generate_xkcdpassword rng mt_seed wordlist numwords acrostic
                               delimiter case num_digits num_symbols) s.
Proof.
  unfold generate_xkcdpassword_io, generate_xkcdpassword.
  by rewrite run_bind.
Qed.

(** In plain mode the interactive version is the accept loop over
    [gen_passwd]. *)
Lemma generate_io_interactive_plain (rounds : nat) (wordlist : list string)
    (numwords : nat) (delimiter case : string) (num_digits num_symbols : nat)
    (s : session) :
  generate_xkcdpassword_io rng mt_seed rounds wordlist numwords true None
                           delimiter case num_digits num_symbols s
  = accept_loop rounds
      (generate_xkcdpassword rng mt_seed wordlist numwords None delimiter case
                             num_digits num_symbols) s.
Proof. by destruct s. Qed.

Lemma plain_passwd_total (wordlist : list string) (numwords : nat)
    (delimiter case : string) (num_digits num_symbols : nat) :
  wordlist ≠ [] ∨ numwords = 0 →
  case ∈ ["sentence"; "alternating"; "upper"; "lower"; "random";
          "first"; "capitalize"] →
  ∀ w, ∃ pw w',
    generate_xkcdpassword rng mt_seed wordlist numwords None delimiter case
                          num_digits num_symbols w = (Ok pw, w').
Proof.
  intros Hwl Hcase w.
  destruct (plain_passwd_full rng mt_seed wordlist numwords None delimiter case
              num_digits num_symbols w eq_refl Hwl Hcase)
    as (words & cased & digits & symbols & w1 & w2 & w' & _ & _ & Hrun & _).
  eauto.
Qed.

End InteractiveFacts.

(** X20.  An interactive plain-mode call generates and shows passphrases
    until the user answers y or yes (in any case, with spaces around).  The
    passphrases are those that as many successive calls of [gen_passwd]
    return, one per answer read; the call returns the last of them, the one
    accepted, and leaves the rest of the input unread.  The terminal shows
    each passphrase with the prompt and the verdict, in order, and nothing
    else; the channel of the report is left as it was. *)
Theorem interactive_returns_accepted (rng : rng_class)
    (mt_seed : string → stream) (wordlist : list string) (numwords : nat)
    (delimiter case : string) (num_digits num_symbols : nat)
    (rejected : list string) (yes : string) (rest : list input)
    (rounds : nat) (s : session) :
  wordlist ≠ [] ∨ numwords = 0 →
  case ∈ ["sentence"; "alternating"; "upper"; "lower"; "random";
          "first"; "capitalize"] →
  pending s = (Line <$> rejected) ++ Line yes :: rest →
  Forall (λ answer, accepted_validator answer = false) rejected →
  accepted_validator yes = true →
  length rejected < rounds →
  ∃ pws passwd w',
    successive (gen_passwd rng mt_seed wordlist numwords None ∅ delimiter case
                           num_digits num_symbols)
               (S (length rejected)) (sworld s) = (pws ++ [passwd], w') ∧
    length pws = length rejected ∧
    generate_xkcdpassword_io rng mt_seed rounds wordlist numwords true None
                             delimiter case num_digits num_symbols s
      = (Returns passwd,
         Session w' rest
           (screen s
            ++ concat ((λ pw, ["Generated: " +:+ pw +:+ String "010" "";
                               "Accept? [yN] ";
                               "accepted False" +:+ String "010" ""])
                       <$> pws)
            ++ ["Generated: " +:+ passwd +:+ String "010" "";
                "Accept? [yN] "; "accepted True" +:+ String "010" ""])) ∧
    stdout w' = stdout (sworld s).
Proof.
  intros Hwl Hcase Hp Hrej Hyes Hr. rewrite generate_io_interactive_plain.
  destruct (accept_loop_accepts
              (generate_xkcdpassword rng mt_seed wordlist numwords None
                 delimiter case num_digits num_symbols)
              rejected yes rest rounds s)
    as (pws & passwd & w' & Hsucc & Hlen & Hrun); try done.
  { by apply plain_passwd_total. }
  exists pws, passwd, w'. split; [exact Hsucc|]. split; [done|].
  split; [done|].
  pose proof (successive_stdout _ (S (length rejected)) (sworld s)
                (keeps_generate_xkcdpassword rng mt_seed wordlist numwords
                   None delimiter case num_digits num_symbols)) as Hout.
  by rewrite Hsucc in Hout.
Qed.

Lemma interactive_returns_accepted_witness :
  ∃ pws passwd w',
    successive (gen_passwd SystemRandom example_seed ["correct"; "horse"] 2
                           None ∅ "." "sentence" 1 1)
               (S (length ["n"; ""]))
               (sworld (example_session
                          [Line "n"; Line ""; Line " Yes "; Line "y"]))
      = (pws ++ [passwd], w') ∧
    length pws = length ["n"; ""] ∧
    generate_xkcdpassword_io SystemRandom example_seed 5
      ["correct"; "horse"] 2 true None "." "sentence" 1 1
      (example_session [Line "n"; Line ""; Line " Yes "; Line "y"])
      = (Returns passwd,
         Session w' [Line "y"]
           (screen (example_session
                      [Line "n"; Line ""; Line " Yes "; Line "y"])
            ++ concat ((λ pw, ["Generated: " +:+ pw +:+ String "010" "";
                               "Accept? [yN] ";
                               "accepted False" +:+ String "010" ""])
                       <$> pws)
            ++ ["Generated: " +:+ passwd +:+ String "010" "";
                "Accept? [yN] "; "accepted True" +:+ String "010" ""])) ∧
    stdout w'
      = stdout (sworld (example_session
                          [Line "n"; Line ""; Line " Yes "; Line "y"])).
Proof.
  apply (interactive_returns_accepted SystemRandom example_seed
           ["correct"; "horse"] 2 "." "sentence" 1 1 ["n"; ""] " Yes "
           [Line "y"] 5
           (example_session [Line "n"; Line ""; Line " Yes "; Line "y"])).
  - left. discriminate.
  - repeat (apply elem_of_cons; first [left; reflexivity | right]).
  - reflexivity.
  - repeat constructor.
  - vm_compute. reflexivity.
  - vm_compute. lia.
Defined.

(** X21.  When the input ends or is interrupted at the accept prompt, after
    any number of rejections, the interactive call returns no passphrase: it
    writes a newline and exits with status 0.  The passphrase of that round
    was generated and shown all the same: the generator has been called once
    per rejection and once more, and the terminal shows each of these
    passphrases with the prompt, the rejected ones with their verdict, and
    nothing else; the channel of the report is left as it was. *)
Theorem interactive_cancel_exits_zero (rng : rng_class)
    (mt_seed : string → stream) (wordlist : list string) (numwords : nat)
    (delimiter case : string) (num_digits num_symbols : nat)
    (rejected : list string) (rest : list input) (rounds : nat) (s : session) :
  wordlist ≠ [] ∨ numwords = 0 →
  case ∈ ["sentence"; "alternating"; "upper"; "lower"; "random";
          "first"; "capitalize"] →
  pending s = (Line <$> rejected) ++ rest →
  Forall (λ answer, accepted_validator answer = false) rejected →
  match rest with Line _ :: _ => False | _ => True end →
  length rejected < rounds →
  ∃ pws passwd w',
    successive (gen_passwd rng mt_seed wordlist numwords None ∅ delimiter case
                           num_digits num_symbols)
               (S (length rejected)) (sworld s) = (pws ++ [passwd], w') ∧
    length pws = length rejected ∧
    generate_xkcdpassword_io rng mt_seed rounds wordlist numwords true None
                             delimiter case num_digits num_symbols s
      = (Raises (Exn (SystemExit 0)),
         Session w' (tail rest)
           (screen s
            ++ concat ((λ pw, ["Generated: " +:+ pw +:+ String "010" "";
                               "Accept? [yN] ";
                               "accepted False" +:+ String "010" ""])
                       <$> pws)
            ++ ["Generated: " +:+ passwd +:+ String "010" "";
                "Accept? [yN] "; String "010" ""])) ∧
    stdout w' = stdout (sworld s).
Proof.
  intros Hwl Hcase Hp Hrej Hrest Hr. rewrite generate_io_interactive_plain.
  destruct (accept_loop_cancelled
              (generate_xkcdpassword rng mt_seed wordlist numwords None
                 delimiter case num_digits num_symbols)
              rejected rest rounds s)
    as (pws & passwd & w' & Hsucc & Hlen & Hrun); try done.
  { by apply plain_passwd_total. }
  exists pws, passwd, w'. split; [exact Hsucc|]. split; [done|].
  split; [done|].
  pose proof (successive_stdout _ (S (length rejected)) (sworld s)
                (keeps_generate_xkcdpassword rng mt_seed wordlist numwords
                   None delimiter case num_digits num_symbols)) as Hout.
  by rewrite Hsucc in Hout.
Qed.

Lemma interactive_cancel_exits_zero_witness :
  ∃ pws passwd w',
    successive (gen_passwd SystemRandom example_seed ["correct"; "horse"] 2
                           None ∅ "." "sentence" 1 1)
               (S (length ["no"]))
               (sworld (example_session [Line "no"; Interrupt; Line "y"]))
      = (pws ++ [passwd], w') ∧
    length pws = length ["no"] ∧
    generate_xkcdpassword_io SystemRandom example_seed 5
      ["correct"; "horse"] 2 true None "." "sentence" 1 1
      (example_session [Line "no"; Interrupt; Line "y"])
      = (Raises (Exn (SystemExit 0)),
         Session w' (tail [Interrupt; Line "y"])
           (screen (example_session [Line "no"; Interrupt; Line "y"])
            ++ concat ((λ pw, ["Generated: " +:+ pw +:+ String "010" "";
                               "Accept? [yN] ";
                               "accepted False" +:+ String "010" ""])
                       <$> pws)
            ++ ["Generated: " +:+ passwd +:+ String "010" "";
                "Accept? [yN] "; String "010" ""])) ∧
    stdout w'
      = stdout (sworld (example_session [Line "no"; Interrupt; Line "y"])).
Proof.
  apply (interactive_cancel_exits_zero SystemRandom example_seed
           ["correct"; "horse"] 2 "." "sentence" 1 1 ["no"]
           [Interrupt; Line "y"] 5
           (example_session [Line "no"; Interrupt; Line "y"])).
  - left. discriminate.
  - repeat (apply elem_of_cons; first [left; reflexivity | right]).
  - reflexivity.
  - repeat constructor.
  - exact I.
  - vm_compute. lia.
Defined.

(** ** The number of words of an interactive run *)

(** X22.  Whenever [initialize_interactive_run] returns, it has changed
    nothing but [numwords], and the new [numwords] is the one given on the
    command line (an empty answer) or at least 1 (a number typed, or the
    length of the acrostic). *)
Theorem initialize_interactive_run_numwords (int_of : string → option Z)
    (o o' : cli_options) (s s' : session) :
  initialize_interactive_run int_of o s = (Returns o', s') →
  ∃ n, o' = set_numwords o n ∧ (n = cli_numwords o ∨ 1 ≤ n).
Proof.
  unfold initialize_interactive_run.
  destruct (acrostic_set (cli_acrostic o)) as [acrostic|] eqn:Hacr.
  - intros [= <- <-]. eexists. split; [done|]. right.
    destruct (cli_acrostic o) as [[|c a]|]; try discriminate Hacr.
    injection Hacr as <-. unfold Str.len. cbn. lia.
  - rewrite io_bind_run.
    destruct (pending s) as [|[answer|] rest] eqn:Hp.
    + rewrite try_input_cancel by (by rewrite Hp). discriminate.
    + rewrite (try_input_line _ _ _ answer rest Hp).
      unfold n_words_validator. case_decide as Hlen.
      * intros [= <- <-]. eexists. split; [done|]. by left.
      * unfold io_try_except. destruct (int_of answer) as [number|].
        -- case_decide as Hn; [discriminate|].
           intros [= <- <-]. eexists. split; [done|]. right. lia.
        -- discriminate.
    + rewrite try_input_cancel by (by rewrite Hp). discriminate.
Qed.

Lemma initialize_interactive_run_numwords_witness :
  ∃ n, set_numwords example_options 12 = set_numwords example_options n ∧
       (n = cli_numwords example_options ∨ 1 ≤ n).
Proof.
  apply (initialize_interactive_run_numwords example_int example_options
           (set_numwords example_options 12)
           (example_session [Line "12"; Line "y"])
           (Session example_world [Line "y"]
                    ["Enter number of words (default 2):" +:+ String "010" ""])).
  vm_compute. reflexivity.
Defined.

(** X23.  An answer to the number-of-words prompt that is not empty and is
    not an integer of at least 1 ends the run: "Please enter a positive
    integer" goes to the diagnostic stream and the program exits with
    status 1, without asking again. *)
Theorem initialize_interactive_run_rejects (int_of : string → option Z)
    (o : cli_options) (s : session) (answer : string) (rest : list input) :
  acrostic_set (cli_acrostic o) = None →
  pending s = Line answer :: rest →
  answer ≠ "" →
  (∀ number, int_of answer = Some number → (number < 1)%Z) →
  ∃ s', initialize_interactive_run int_of o s
          = (Raises (Exn (SystemExit 1)), s') ∧
    pending s' = rest ∧
    stderr (sworld s') = stderr (sworld s)
                         ++ ["Please enter a positive integer"
                             +:+ String "010" ""].
Proof.
  intros Hacr Hp Hne Hbad. unfold initialize_interactive_run.
  rewrite Hacr, io_bind_run, (try_input_line _ _ _ answer rest Hp).
  unfold n_words_validator. rewrite decide_False.
  2:{ destruct answer; [done|]. unfold Str.len. cbn. lia. }
  unfold io_try_except.
  destruct (int_of answer) as [number|] eqn:Hi.
  - rewrite decide_True by (by apply Hbad). eexists. by split.
  - eexists. by split.
Qed.

Lemma initialize_interactive_run_rejects_witness :
  ∃ s', initialize_interactive_run example_int example_options
          (example_session [Line "0"; Line "5"])
          = (Raises (Exn (SystemExit 1)), s') ∧
    pending s' = [Line "5"] ∧
    stderr (sworld s')
      = stderr (sworld (example_session [Line "0"; Line "5"]))
        ++ ["Please enter a positive integer" +:+ String "010" ""].
Proof.
  apply (initialize_interactive_run_rejects example_int example_options
           (example_session [Line "0"; Line "5"]) "0" [Line "5"]).
  - reflexivity.
  - reflexivity.
  - discriminate.
  - intros number H. vm_compute in H. injection H as <-. lia.
Defined.

(** ** Emitting the passphrases *)

Section EmitFacts.

Variable rng : rng_class.
Variable mt_seed : string → stream.
Variable int_of : string → option Z.

(** Whether a call of [generate_xkcdpassword] returns a passphrase depends
    on its arguments only, not on what the generators deliver. *)
Lemma generate_uniform (wordlist : list string) (numwords : nat)
    (acrostic : option string) (delimiter case : string)
    (num_digits num_symbols : nat) :
  (∀ w, ∃ pw w',
     generate_xkcdpassword rng mt_seed wordlist numwords acrostic delimiter
                           case num_digits num_symbols w = (Ok pw, w')) ∨
  (∀ w, ∃ e w',
     generate_xkcdpassword rng mt_seed wordlist numwords acrostic delimiter
                           case num_digits num_symbols w = (Raise e, w')).
Proof.
  destruct (decide (case ∈ ["sentence"; "alternating"; "upper"; "lower";
                            "random"; "first"; "capitalize"]))
    as [Hcase|Hcase].
  all: destruct (acrostic_set acrostic) as [a|] eqn:Hacr.
  - (* acrostic, known case method *)
    destruct (wordlist_to_worddict wordlist) as [d|e] eqn:Hd.
    + destruct (decide (Forall (λ c, is_Some (d !! c)) (Str.chars a)))
        as [Hall|Hnall].
      * left. intros w.
        destruct (find_acrostic_loop_found rng wordlist d _ [] w Hd Hall)
          as (words & w1 & Hfind & _).
        destruct (set_case_known mt_seed words case w1 Hcase)
          as (cased & w2 & Hset & _).
        assert (Hsel : select_words rng wordlist numwords acrostic d w
                       = (Ok words, w1)).
        { unfold select_words. by rewrite Hacr. }
        destruct (gen_passwd_run rng mt_seed wordlist numwords acrostic d
                    delimiter case num_digits num_symbols w w1 w2 words cased
                    Hsel Hset) as (digits & symbols & w' & Hrun & _).
        eexists _, w'. unfold generate_xkcdpassword.
        rewrite Hacr, bind_run. unfold lift. rewrite Hd. exact Hrun.
      * right. intros w. apply not_Forall_Exists in Hnall; [|apply _].
        assert (Hex : Exists (λ c, d !! c = None) (Str.chars a)).
        { eapply Exists_impl; [exact Hnall|]. intros c Hc. cbn in Hc.
          by apply eq_None_not_Some. }
        destruct (find_acrostic_loop_missing rng wordlist d _ [] w Hd Hex)
          as (c & w' & _ & _ & Hrun & _).
        eexists _, w'. unfold generate_xkcdpassword.
        rewrite Hacr, bind_run. unfold lift. rewrite Hd.
        unfold gen_passwd, select_words. rewrite Hacr.
        by rewrite (bind_raise _ _ _ _ _ Hrun).
    + right. intros w. exists e, w. unfold generate_xkcdpassword.
      rewrite Hacr, bind_run. unfold lift. by rewrite Hd.
  - (* plain, known case method *)
    destruct (decide (wordlist = [])) as [->|Hne]; [destruct numwords|].
    + left. intros w.
      destruct (plain_passwd_full rng mt_seed [] 0 acrostic delimiter case
                  num_digits num_symbols w Hacr (or_intror eq_refl) Hcase)
        as (? & ? & ? & ? & ? & ? & w' & _ & _ & Hrun & _). eauto.
    + right. intros w. exists IndexError, w. unfold generate_xkcdpassword.
      rewrite Hacr. unfold gen_passwd, select_words. by rewrite Hacr.
    + left. intros w.
      destruct (plain_passwd_full rng mt_seed wordlist numwords acrostic
                  delimiter case num_digits num_symbols w Hacr
                  (or_introl Hne) Hcase)
        as (? & ? & ? & ? & ? & ? & w' & _ & _ & Hrun & _). eauto.
  - (* acrostic, unknown case method *)
    right. intros w.
    destruct (wordlist_to_worddict wordlist) as [d|e] eqn:Hd.
    + unfold generate_xkcdpassword. rewrite Hacr, bind_run. unfold lift.
      rewrite Hd. unfold gen_passwd. rewrite bind_run.
      destruct (select_words rng wordlist numwords acrostic d w)
        as [[words|e] w1]; [|by eauto].
      rewrite bind_run, (set_case_unknown mt_seed words case false w1 Hcase).
      by eauto.
    + exists e, w. unfold generate_xkcdpassword.
      rewrite Hacr, bind_run. unfold lift. by rewrite Hd.
  - (* plain, unknown case method *)
    right. intros w. unfold generate_xkcdpassword. rewrite Hacr.
    change (∃ e w', gen_passwd rng mt_seed wordlist numwords acrostic ∅
                      delimiter case num_digits num_symbols w = (Raise e, w')).
    unfold gen_passwd. rewrite bind_run.
    destruct (select_words rng wordlist numwords acrostic ∅ w)
      as [[words|e] w1]; [|by eauto].
    rewrite bind_run, (set_case_unknown mt_seed words case false w1 Hcase).
    by eauto.
Qed.

Lemma emit_loop_all (rounds : nat) (wordlist : list string) (o : cli_options)
    (count : nat) (s : session) :
  cli_interactive o = false →
  (∀ w, ∃ pw w',
     generate_xkcdpassword rng mt_seed wordlist (cli_numwords o)
       (cli_acrostic o) (cli_delimiter o) (cli_case o) (cli_num_digits o)
       (cli_num_symbols o) w = (Ok pw, w')) →
  ∃ pws w',
    successive (generate_xkcdpassword rng mt_seed wordlist (cli_numwords o)
                  (cli_acrostic o) (cli_delimiter o) (cli_case o)
                  (cli_num_digits o) (cli_num_symbols o))
               count (sworld s) = (pws, w') ∧
    length pws = count ∧
    emit_loop rng mt_seed rounds wordlist o count s
      = (Returns (),
         Session w' (pending s)
                 (screen s ++ ((λ pw, pw +:+ cli_separator o) <$> pws))).
Proof.
  intros Hni Hgen. revert s. induction count as [|count IH]; intros s.
  - exists [], (sworld s). cbn. rewrite app_nil_r. by destruct s.
  - destruct (Hgen (sworld s)) as (pw & w1 & Hrun). cbn [emit_loop].
    rewrite Hni, io_bind_run, generate_io_noninteractive.
    rewrite (run_ok _ s pw w1 Hrun), io_bind_run.
    cbn [write sworld pending screen].
    destruct (IH (Session w1 (pending s) (screen s ++ [pw +:+ cli_separator o])))
      as (pws & w' & Hsucc & Hlen & Hloop).
    exists (pw :: pws), w'. cbn [sworld pending screen] in *.
    split; [by apply (successive_S _ count (sworld s) w1 w' pw pws)|].
    split; [cbn; by rewrite Hlen|].
    rewrite Hloop. cbn [fmap list_fmap]. by rewrite <- app_assoc.
Qed.

Lemma emit_loop_none (rounds : nat) (wordlist : list string) (o : cli_options)
    (count : nat) (s : session) :
  cli_interactive o = false →
  (∀ w, ∃ e w',
     generate_xkcdpassword rng mt_seed wordlist (cli_numwords o)
       (cli_acrostic o) (cli_delimiter o) (cli_case o) (cli_num_digits o)
       (cli_num_symbols o) w = (Raise e, w')) →
  count ≠ 0 →
  ∃ e w',
    generate_xkcdpassword rng mt_seed wordlist (cli_numwords o)
      (cli_acrostic o) (cli_delimiter o) (cli_case o) (cli_num_digits o)
      (cli_num_symbols o) (sworld s) = (Raise e, w') ∧
    emit_loop rng mt_seed rounds wordlist o count s
      = (Raises (Exn e), Session w' (pending s) (screen s)).
Proof.
  intros Hni Hgen Hc. destruct count as [|count]; [done|].
  destruct (Hgen (sworld s)) as (e & w' & Hrun). exists e, w'.
  split; [done|]. cbn [emit_loop].
  rewrite Hni, io_bind_run, generate_io_noninteractive.
  by rewrite (run_raise _ s e w' Hrun).
Qed.

End EmitFacts.

(** X24.  Without [interactive], in plain mode, over a non-empty word list
    and with a known case method, [emit_passwords] writes to the terminal
    exactly the [count] passphrases that [count] successive calls of
    [generate_xkcdpassword] return, in order, each followed by the
    separator, and nothing else; it reads nothing, and leaves the channel of
    the report as it was. *)
Theorem emit_passwords_prints_count (rng : rng_class)
    (mt_seed : string → stream) (rounds : nat) (wordlist : list string)
    (o : cli_options) (s : session) :
  cli_interactive o = false →
  acrostic_set (cli_acrostic o) = None →
  wordlist ≠ [] ∨ cli_numwords o = 0 →
  cli_case o ∈ ["sentence"; "alternating"; "upper"; "lower"; "random";
                "first"; "capitalize"] →
  ∃ pws w',
    successive (generate_xkcdpassword rng mt_seed wordlist (cli_numwords o)
                  (cli_acrostic o) (cli_delimiter o) (cli_case o)
                  (cli_num_digits o) (cli_num_symbols o))
               (cli_count o) (sworld s) = (pws, w') ∧
    length pws = cli_count o ∧
    emit_passwords rng mt_seed rounds wordlist o s
      = (Returns (),
         Session w' (pending s)
                 (screen s ++ ((λ pw, pw +:+ cli_separator o) <$> pws))) ∧
    stdout w' = stdout (sworld s).
Proof.
  intros Hni Hacr Hwl Hcase.
  destruct (emit_loop_all rng mt_seed rounds wordlist o (cli_count o) s Hni)
    as (pws & w' & Hsucc & Hlen & Hrun).
  { intros w.
    destruct (plain_passwd_full rng mt_seed wordlist (cli_numwords o)
                (cli_acrostic o) (cli_delimiter o) (cli_case o)
                (cli_num_digits o) (cli_num_symbols o) w Hacr Hwl Hcase)
      as (? & ? & ? & ? & ? & ? & w' & _ & _ & Hrun & _). eauto. }
  exists pws, w'. split; [done|]. split; [done|]. split; [done|].
  pose proof (successive_stdout _ (cli_count o) (sworld s)
                (keeps_generate_xkcdpassword rng mt_seed wordlist
                   (cli_numwords o) (cli_acrostic o) (cli_delimiter o)
                   (cli_case o) (cli_num_digits o) (cli_num_symbols o)))
    as Hout.
  by rewrite Hsucc in Hout.
Qed.

Lemma emit_passwords_prints_count_witness :
  ∃ pws w',
    successive (generate_xkcdpassword SystemRandom example_seed
                  ["correct"; "horse"] (cli_numwords example_options)
                  (cli_acrostic example_options)
                  (cli_delimiter example_options) (cli_case example_options)
                  (cli_num_digits example_options)
                  (cli_num_symbols example_options))
               (cli_count example_options) (sworld (example_session []))
      = (pws, w') ∧
    length pws = cli_count example_options ∧
    emit_passwords SystemRandom example_seed 1 ["correct"; "horse"]
                   example_options (example_session [])
      = (Returns (),
         Session w' (pending (example_session []))
                 (screen (example_session [])
                  ++ ((λ pw, pw +:+ cli_separator example_options) <$> pws))) ∧
    stdout w' = stdout (sworld (example_session [])).
Proof.
  apply (emit_passwords_prints_count SystemRandom example_seed 1
           ["correct"; "horse"] example_options (example_session [])).
  - reflexivity.
  - reflexivity.
  - left. discriminate.
  - repeat (apply elem_of_cons; first [left; reflexivity | right]).
Defined.

(** X25.  Without [interactive], [emit_passwords] writes all its
    passphrases or none: when it does not return normally, whatever the
    mode, the word list and the case method, it has failed on the first
    passphrase, and the terminal, the pending input and the channel of the
    report are as it found them: nothing is written to standard output. *)
Theorem emit_passwords_all_or_nothing (rng : rng_class)
    (mt_seed : string → stream) (rounds : nat) (wordlist : list string)
    (o : cli_options) (s : session) :
  cli_interactive o = false →
  (emit_passwords rng mt_seed rounds wordlist o s).1 ≠ Returns () →
  screen (emit_passwords rng mt_seed rounds wordlist o s).2 = screen s ∧
  pending (emit_passwords rng mt_seed rounds wordlist o s).2 = pending s ∧
  stdout (sworld (emit_passwords rng mt_seed rounds wordlist o s).2)
    = stdout (sworld s).
Proof.
  intros Hni Hfail. unfold emit_passwords in *.
  destruct (generate_uniform rng mt_seed wordlist (cli_numwords o)
              (cli_acrostic o) (cli_delimiter o) (cli_case o)
              (cli_num_digits o) (cli_num_symbols o)) as [Hall|Hnone].
  - destruct (emit_loop_all rng mt_seed rounds wordlist o (cli_count o) s
                Hni Hall) as (pws & w' & _ & _ & Hrun).
    rewrite Hrun in Hfail. by destruct Hfail.
  - destruct (decide (cli_count o = 0)) as [Hc|Hc].
    + rewrite Hc in *. by destruct Hfail.
    + destruct (emit_loop_none rng mt_seed rounds wordlist o (cli_count o) s
                  Hni Hnone Hc) as (e & w' & Hgen & Hrun).
      rewrite Hrun. cbn [snd screen pending sworld].
      split; [done|]. split; [done|].
      pose proof (keeps_generate_xkcdpassword rng mt_seed wordlist
                    (cli_numwords o) (cli_acrostic o) (cli_delimiter o)
                    (cli_case o) (cli_num_digits o) (cli_num_symbols o)
                    (sworld s)) as Hout.
      by rewrite Hgen in Hout.
Qed.

Lemma emit_passwords_all_or_nothing_witness :
  screen (emit_passwords SystemRandom example_seed 1 ["apple"; "ant"; "bee"]
            (CliOptions None 3 9 2 (Some "cab") false Dot false 2 "."
                        (String "010" "") "sentence" 1 1)
            (example_session [])).2
  = screen (example_session []) ∧
  pending (emit_passwords SystemRandom example_seed 1 ["apple"; "ant"; "bee"]
             (CliOptions None 3 9 2 (Some "cab") false Dot false 2 "."
                         (String "010" "") "sentence" 1 1)
             (example_session [])).2
  = pending (example_session []) ∧
  stdout (sworld (emit_passwords SystemRandom example_seed 1
                    ["apple"; "ant"; "bee"]
                    (CliOptions None 3 9 2 (Some "cab") false Dot false 2 "."
                                (String "010" "") "sentence" 1 1)
                    (example_session [])).2)
  = stdout (sworld (example_session [])).
Proof.
  apply (emit_passwords_all_or_nothing SystemRandom example_seed 1
           ["apple"; "ant"; "bee"]
           (CliOptions None 3 9 2 (Some "cab") false Dot false 2 "."
                       (String "010" "") "sentence" 1 1)
           (example_session [])).
  - reflexivity.
  - vm_compute. discriminate.
Defined.

(** ** The main line *)

Section MainFacts.

Variable rng : rng_class.
Variable mt_seed : string → stream.
Variable int_of : string → option Z.
Variable entropy_fits : nat → nat → bool.

Lemma validate_options_found (os : os_env) (o : cli_options) (w : world) :
  path_found (locate_wordfile os (cli_wordfile o)) = true →
  ∃ w', validate_options os o w = (Ok (), w') ∧
    entropy w' = entropy w ∧ draws w' = draws w ∧ stdout w' = stdout w.
Proof.
  intros Hf. unfold validate_options. rewrite Hf. cbn [negb].
  rewrite bind_run. case_decide; eexists; by split.
Qed.

Lemma validate_options_not_found (os : os_env) (o : cli_options) (w : world) :
  path_found (locate_wordfile os (cli_wordfile o)) = false →
  ∃ w', validate_options os o w = (Raise (SystemExit 1), w') ∧
    last (stderr w') = Some ("Could not find a word file, or word file does "
                             +:+ "not exist." +:+ String "010" "").
Proof.
  intros Hf. unfold validate_options. rewrite Hf. cbn [negb].
  rewrite bind_run.
  case_decide; eexists; (split; [reflexivity|]); cbn; by rewrite last_snoc.
Qed.

(** The main line of a run without [interactive] and [verbose], once the
    word file is found. *)
Lemma main_plain_run (rounds : nat) (os : os_env) (o : cli_options)
    (s : session) (path : string) :
  cli_interactive o = false →
  cli_verbose o = false →
  locate_wordfile os (cli_wordfile o) = Some path →
  path_found (Some path) = true →
  main rng mt_seed int_of entropy_fits rounds os o s
  = catch_SystemExit
      (emit_passwords rng mt_seed rounds
         (generate_wordlist (file_lines os path) (cli_min_length o)
            (cli_max_length o) (cli_valid_chars o)) o ≫= λ _, mret 0)
      (Session (validate_options os o (sworld s)).2 (pending s) (screen s)).
Proof.
  intros Hni Hnv Hloc Hf.
  destruct (validate_options_found os o (sworld s)) as (w' & Hv & _);
    [by rewrite Hloc|].
  rewrite Hv. cbn [snd].
  unfold main, catch_SystemExit. rewrite io_bind_run, (run_ok _ s () w' Hv).
  rewrite io_bind_run. unfold generate_wordlist_os. rewrite Hloc.
  cbn [mret IO_ret]. rewrite Hni, io_ret_bind, Hnv. by rewrite io_ret_bind.
Qed.

End MainFacts.

(** X26.  When no word file is found, [main] returns exit status 1: the
    message is on the diagnostic stream, nothing is written to standard
    output, neither to the terminal nor to the channel of the report, and
    nothing is read. *)
Theorem main_missing_wordfile (rng : rng_class) (mt_seed : string → stream)
    (int_of : string → option Z) (entropy_fits : nat → nat → bool)
    (rounds : nat) (os : os_env) (o : cli_options) (s : session) :
  locate_wordfile os (cli_wordfile o) = None →
  ∃ s', main rng mt_seed int_of entropy_fits rounds os o s = (Returns 1, s') ∧
    screen s' = screen s ∧ pending s' = pending s ∧
    stdout (sworld s') = stdout (sworld s) ∧
    last (stderr (sworld s'))
      = Some ("Could not find a word file, or word file does "
              +:+ "not exist." +:+ String "010" "").
Proof.
  intros Hloc.
  destruct (validate_options_not_found os o (sworld s)) as (w' & Hv & He);
    [by rewrite Hloc|].
  pose proof (keeps_validate_options os o (sworld s)) as Hout.
  rewrite Hv in Hout.
  eexists. unfold main, catch_SystemExit.
  rewrite io_bind_run, (run_raise _ s _ w' Hv). by repeat split.
Qed.

Lemma main_missing_wordfile_witness :
  ∃ s', main SystemRandom example_seed example_int example_float_range 1
          (OsEnv "/opt/xkcdpass/static" (λ p, p) (λ _, false) (λ _, []))
          example_options (example_session [Line "y"]) = (Returns 1, s') ∧
    screen s' = screen (example_session [Line "y"]) ∧
    pending s' = pending (example_session [Line "y"]) ∧
    stdout (sworld s') = stdout (sworld (example_session [Line "y"])) ∧
    last (stderr (sworld s'))
      = Some ("Could not find a word file, or word file does "
              +:+ "not exist." +:+ String "010" "").
Proof.
  apply (main_missing_wordfile SystemRandom example_seed example_int
           example_float_range 1
           (OsEnv "/opt/xkcdpass/static" (λ p, p) (λ _, false) (λ _, []))
           example_options (example_session [Line "y"])).
  vm_compute. reflexivity.
Defined.

(** X27.  A plain run without [interactive] and [verbose], whose word file
    is found and yields at least one word, with a known case method, returns
    exit status 0 after writing to the terminal exactly the [count]
    passphrases that [count] successive calls of [generate_xkcdpassword]
    return over the filtered word list, in order, each followed by the
    separator, and nothing else.  It reads nothing and writes nothing to the
    channel of the report. *)
Theorem main_prints_passwords (rng : rng_class) (mt_seed : string → stream)
    (int_of : string → option Z) (entropy_fits : nat → nat → bool)
    (rounds : nat) (os : os_env) (o : cli_options) (s : session)
    (path : string) :
  cli_interactive o = false →
  cli_verbose o = false →
  acrostic_set (cli_acrostic o) = None →
  locate_wordfile os (cli_wordfile o) = Some path →
  path_found (Some path) = true →
  generate_wordlist (file_lines os path) (cli_min_length o)
                    (cli_max_length o) (cli_valid_chars o) ≠ [] →
  cli_case o ∈ ["sentence"; "alternating"; "upper"; "lower"; "random";
                "first"; "capitalize"] →
  ∃ pws w',
    successive
      (generate_xkcdpassword rng mt_seed
         (generate_wordlist (file_lines os path) (cli_min_length o)
            (cli_max_length o) (cli_valid_chars o))
         (cli_numwords o) (cli_acrostic o) (cli_delimiter o) (cli_case o)
         (cli_num_digits o) (cli_num_symbols o))
      (cli_count o) (validate_options os o (sworld s)).2 = (pws, w') ∧
    length pws = cli_count o ∧
    main rng mt_seed int_of entropy_fits rounds os o s
      = (Returns 0,
         Session w' (pending s)
                 (screen s ++ ((λ pw, pw +:+ cli_separator o) <$> pws))) ∧
    stdout w' = stdout (sworld s).
Proof.
  intros Hni Hnv Hacr Hloc Hf Hwl Hcase.
  rewrite (main_plain_run rng mt_seed int_of entropy_fits rounds os o s path
             Hni Hnv Hloc Hf).
  assert (Hgen : ∀ w, ∃ pw w1,
            generate_xkcdpassword rng mt_seed
              (generate_wordlist (file_lines os path) (cli_min_length o)
                 (cli_max_length o) (cli_valid_chars o))
              (cli_numwords o) (cli_acrostic o) (cli_delimiter o) (cli_case o)
              (cli_num_digits o) (cli_num_symbols o) w = (Ok pw, w1)).
  { intros w.
    destruct (plain_passwd_full rng mt_seed _ (cli_numwords o)
                (cli_acrostic o) (cli_delimiter o) (cli_case o)
                (cli_num_digits o) (cli_num_symbols o) w Hacr
                (or_introl Hwl) Hcase)
      as (? & ? & ? & ? & ? & ? & w1 & _ & _ & Hrun & _). eauto. }
  destruct (emit_loop_all rng mt_seed rounds _ o (cli_count o)
              (Session (validate_options os o (sworld s)).2 (pending s)
                       (screen s)) Hni Hgen)
    as (pws & w' & Hsucc & Hlen & Hrun).
  cbn [sworld pending screen] in *.
  exists pws, w'. split; [exact Hsucc|]. split; [done|]. split.
  - unfold catch_SystemExit, emit_passwords. by rewrite io_bind_run, Hrun.
  - pose proof (successive_stdout _ (cli_count o)
                  (validate_options os o (sworld s)).2
                  (keeps_generate_xkcdpassword rng mt_seed
                     (generate_wordlist (file_lines os path) (cli_min_length o)
                        (cli_max_length o) (cli_valid_chars o))
                     (cli_numwords o) (cli_acrostic o) (cli_delimiter o)
                     (cli_case o) (cli_num_digits o) (cli_num_symbols o)))
      as Hout.
    rewrite Hsucc in Hout. cbn [snd] in Hout. rewrite Hout.
    apply keeps_validate_options.
Qed.

Lemma main_prints_passwords_witness :
  ∃ pws w',
    successive
      (generate_xkcdpassword SystemRandom example_seed
         (generate_wordlist (file_lines example_os "/home/user/words.txt")
            3 9 Dot)
         2 None "-" "upper" 1 1)
      3
      (validate_options example_os
         (CliOptions (Some "~/words.txt") 3 9 2 None false Dot false 3 "-"
                     (String "010" "") "upper" 1 1)
         (sworld (example_session []))).2 = (pws, w') ∧
    length pws = 3 ∧
    main SystemRandom example_seed example_int example_float_range 1
         example_os
         (CliOptions (Some "~/words.txt") 3 9 2 None false Dot false 3 "-"
                     (String "010" "") "upper" 1 1)
         (example_session [])
      = (Returns 0,
         Session w' (pending (example_session []))
                 (screen (example_session [])
                  ++ ((λ pw, pw +:+ String "010" "") <$> pws))) ∧
    stdout w' = stdout (sworld (example_session [])).
Proof.
  apply (main_prints_passwords SystemRandom example_seed example_int
           example_float_range 1 example_os
           (CliOptions (Some "~/words.txt") 3 9 2 None false Dot false 3 "-"
                       (String "010" "") "upper" 1 1)
           (example_session []) "/home/user/words.txt").
  - reflexivity.
  - reflexivity.
  - reflexivity.
  - vm_compute. reflexivity.
  - reflexivity.
  - vm_compute. discriminate.
  - repeat (apply elem_of_cons; first [left; reflexivity | right]).
Defined.

(** X28.  When the filter leaves no word (say, a minimum length no word
    reaches), a plain run without [interactive] and [verbose] that is to
    emit at least one passphrase of at least one word does not end with an
    exit status: IndexError leaves [main], which handles SystemExit only.
    Nothing is written to standard output, neither to the terminal nor to
    the channel of the report, and nothing is read. *)
Theorem main_empty_wordlist_uncaught (rng : rng_class)
    (mt_seed : string → stream) (int_of : string → option Z)
    (entropy_fits : nat → nat → bool) (rounds : nat)
    (os : os_env) (o : cli_options) (s : session) (path : string) :
  cli_interactive o = false →
  cli_verbose o = false →
  acrostic_set (cli_acrostic o) = None →
  locate_wordfile os (cli_wordfile o) = Some path →
  path_found (Some path) = true →
  generate_wordlist (file_lines os path) (cli_min_length o)
                    (cli_max_length o) (cli_valid_chars o) = [] →
  cli_numwords o ≠ 0 →
  cli_count o ≠ 0 →
  ∃ s', main rng mt_seed int_of entropy_fits rounds os o s
          = (Raises (Exn IndexError), s') ∧
    screen s' = screen s ∧ pending s' = pending s ∧
    stdout (sworld s') = stdout (sworld s).
Proof.
  intros Hni Hnv Hacr Hloc Hf Hwl Hn Hc.
  rewrite (main_plain_run rng mt_seed int_of entropy_fits rounds os o s path
             Hni Hnv Hloc Hf).
  pose proof (keeps_validate_options os o (sworld s)) as Hout.
  set (w' := (validate_options os o (sworld s)).2) in *.
  rewrite Hwl. unfold catch_SystemExit, emit_passwords.
  destruct (cli_count o) as [|count]; [done|]. cbn [emit_loop].
  rewrite !io_bind_run, Hni, generate_io_noninteractive.
  assert (Hrun : generate_xkcdpassword rng mt_seed [] (cli_numwords o)
                   (cli_acrostic o) (cli_delimiter o) (cli_case o)
                   (cli_num_digits o) (cli_num_symbols o) w'
                 = (Raise IndexError, w')).
  { unfold generate_xkcdpassword. rewrite Hacr.
    unfold gen_passwd, select_words. rewrite Hacr.
    destruct (cli_numwords o); [done|]. reflexivity. }
  rewrite (run_raise _ (Session w' (pending s) (screen s)) _ _ Hrun).
  eexists. by repeat split.
Qed.

Lemma main_empty_wordlist_uncaught_witness :
  ∃ s', main SystemRandom example_seed example_int example_float_range 1
          example_os
          (CliOptions (Some "~/words.txt") 30 9 2 None false Dot false 3 "-"
                      (String "010" "") "upper" 1 1)
          (example_session []) = (Raises (Exn IndexError), s') ∧
    screen s' = screen (example_session []) ∧
    pending s' = pending (example_session []) ∧
    stdout (sworld s') = stdout (sworld (example_session [])).
Proof.
  apply (main_empty_wordlist_uncaught SystemRandom example_seed example_int
           example_float_range 1 example_os
           (CliOptions (Some "~/words.txt") 30 9 2 None false Dot false 3 "-"
                       (String "010" "") "upper" 1 1)
           (example_session []) "/home/user/words.txt").
  - reflexivity.
  - reflexivity.
  - reflexivity.
  - vm_compute. reflexivity.
  - reflexivity.
  - vm_compute. reflexivity.
  - discriminate.
  - discriminate.
Defined.

(** ** The rounds of the accept loop suffice *)

Lemma bind_ends {A B} (m : IO A) (f : A → IO B) (s : session) :
  ((m s).1 ≠ Unfinished ∧ length (pending (m s).2) ≤ length (pending s)) →
  (∀ a s', length (pending s') ≤ length (pending s) →
     (f a s').1 ≠ Unfinished ∧
     length (pending (f a s').2) ≤ length (pending s')) →
  ((m ≫= f) s).1 ≠ Unfinished ∧
  length (pending ((m ≫= f) s).2) ≤ length (pending s).
Proof.
  intros [Hm Hp] Hf. rewrite io_bind_run.
  destruct (m s) as [[a|e|] s']; cbn in *; [|done|done].
  destruct (Hf a s' Hp) as [H1 H2]. split; [done|lia].
Qed.

Lemma run_ends {A} (m : M A) (s : session) :
  (run m s).1 ≠ Unfinished ∧ length (pending (run m s).2) ≤ length (pending s).
Proof. unfold run. by destruct (m (sworld s)) as [[a|e] w']. Qed.

Lemma write_ends (text : string) (s : session) :
  (write text s).1 ≠ Unfinished ∧
  length (pending (write text s).2) ≤ length (pending s).
Proof. done. Qed.

Lemma ret_ends {A} (a : A) (s : session) :
  ((mret a : IO A) s).1 ≠ Unfinished ∧
  length (pending ((mret a : IO A) s).2) ≤ length (pending s).
Proof. done. Qed.

Lemma try_input_ends {A} (prompt : string) (validate : string → IO A)
    (s : session) :
  (∀ answer s', length (pending s') ≤ length (pending s) →
     (validate answer s').1 ≠ Unfinished ∧
     length (pending (validate answer s').2) ≤ length (pending s')) →
  (try_input prompt validate s).1 ≠ Unfinished ∧
  length (pending (try_input prompt validate s).2) ≤ length (pending s).
Proof.
  intros Hv. destruct (pending s) as [|[answer|] rest] eqn:Hp.
  - rewrite try_input_cancel by (by rewrite Hp). rewrite Hp. cbn.
    split; [done|lia].
  - rewrite (try_input_line _ _ _ answer rest Hp).
    edestruct (Hv answer (Session (sworld s) rest (screen s ++ [prompt])))
      as [H1 H2]; [cbn; lia|].
    split; [done|]. cbn in H2. cbn. lia.
  - rewrite try_input_cancel by (by rewrite Hp). rewrite Hp. cbn.
    split; [done|lia].
Qed.

Section Ends.

Variable rng : rng_class.
Variable mt_seed : string → stream.
Variable int_of : string → option Z.

Lemma generate_io_ends (rounds : nat) (wordlist : list string)
    (numwords : nat) (interactive : bool) (acrostic : option string)
    (delimiter case : string) (num_digits num_symbols : nat) (s : session) :
  length (pending s) < rounds →
  (generate_xkcdpassword_io rng mt_seed rounds wordlist numwords interactive
     acrostic delimiter case num_digits num_symbols s).1 ≠ Unfinished ∧
  length (pending (generate_xkcdpassword_io rng mt_seed rounds wordlist
                     numwords interactive acrostic delimiter case num_digits
                     num_symbols s).2) ≤ length (pending s).
Proof.
  intros Hr. unfold generate_xkcdpassword_io.
  apply bind_ends; [apply run_ends|]. intros d s' Hp.
  destruct interactive; cbn [negb]; [|apply run_ends].
  apply accept_loop_ends. lia.
Qed.

Lemma emit_loop_ends (rounds : nat) (wordlist : list string)
    (o : cli_options) (count : nat) (s : session) :
  length (pending s) < rounds →
  (emit_loop rng mt_seed rounds wordlist o count s).1 ≠ Unfinished ∧
  length (pending (emit_loop rng mt_seed rounds wordlist o count s).2)
    ≤ length (pending s).
Proof.
  revert s. induction count as [|count IH]; intros s Hr; [done|].
  cbn [emit_loop]. apply bind_ends; [by apply generate_io_ends|].
  intros pw s1 Hp1. apply bind_ends; [apply write_ends|].
  intros _ s2 Hp2. apply IH. lia.
Qed.

Lemma n_words_validator_ends (o : cli_options) (answer : string)
    (s : session) :
  (n_words_validator int_of o answer s).1 ≠ Unfinished ∧
  length (pending (n_words_validator int_of o answer s).2)
    ≤ length (pending s).
Proof.
  unfold n_words_validator. case_decide; [done|]. unfold io_try_except.
  destruct (int_of answer) as [number|]; [case_decide|]; done.
Qed.

Lemma initialize_interactive_run_ends (o : cli_options) (s : session) :
  (initialize_interactive_run int_of o s).1 ≠ Unfinished ∧
  length (pending (initialize_interactive_run int_of o s).2)
    ≤ length (pending s).
Proof.
  unfold initialize_interactive_run.
  destruct (acrostic_set (cli_acrostic o)); [done|].
  apply bind_ends; [|by intros].
  apply try_input_ends. intros answer s' _. apply n_words_validator_ends.
Qed.

Lemma catch_SystemExit_ends (body : IO nat) (s : session) :
  (body s).1 ≠ Unfinished →
  (catch_SystemExit body s).1 ≠ Unfinished.
Proof.
  unfold catch_SystemExit. by destruct (body s) as [[a|[[]| | |]|] s'].
Qed.

End Ends.

(** X29.  An interactive run reads one answer per round of the accept loop
    and one for the number of words, and never puts an answer back: whatever
    the options, the word file and the answers, [main] ends, with an exit
    status or an exception, within the rounds allotted as soon as these
    outnumber the answers the terminal holds. *)
Theorem main_ends (rng : rng_class) (mt_seed : string → stream)
    (int_of : string → option Z) (entropy_fits : nat → nat → bool)
    (rounds : nat) (os : os_env) (o : cli_options) (s : session) :
  length (pending s) < rounds →
  (main rng mt_seed int_of entropy_fits rounds os o s).1 ≠ Unfinished.
Proof.
  intros Hr. unfold main. apply catch_SystemExit_ends.
  apply bind_ends; [apply run_ends|]. intros _ s1 Hp1.
  apply bind_ends.
  { unfold generate_wordlist_os. by destruct (locate_wordfile _ _). }
  intros wl s2 Hp2. apply bind_ends.
  { destruct (cli_interactive o); [|done].
    apply initialize_interactive_run_ends. }
  intros o' s3 Hp3. apply bind_ends.
  { destruct (cli_verbose o'); [apply run_ends|done]. }
  intros _ s4 Hp4. apply bind_ends; [|by intros].
  apply emit_loop_ends. lia.
Qed.

Lemma main_ends_witness :
  (main SystemRandom example_seed example_int example_float_range 4
        example_os
        (CliOptions (Some "~/words.txt") 3 9 2 None true Dot true 2 "."
                    (String "010" "") "random" 1 1)
        (example_session [Line "3"; Line "n"; Line "y"])).1 ≠ Unfinished.
Proof.
  apply (main_ends SystemRandom example_seed example_int example_float_range
           4 example_os
           (CliOptions (Some "~/words.txt") 3 9 2 None true Dot true 2 "."
                       (String "010" "") "random" 1 1)
           (example_session [Line "3"; Line "n"; Line "y"])).
  vm_compute. lia.
Defined.
